(** * System wakeup events framework (drivers/base/power/wakeup.c)

    A shallow embedding of the wakeup-source state machine and of the
    quiescence protocol used by the suspend code, with the properties the
    specification states about them.

    Conventions of the model:
    - a [struct wakeup_source *] is [option loc]: [None] is the null
      pointer, [Some l] an address; the allocated objects live in a finite
      map from addresses to structures, and dereferencing an address that
      holds no object is a fault ([None] in the result);
    - every function body that runs under [ws->lock] is one atomic step:
      the structure is read, transformed and written back;
    - [jiffies] and the results of [ktime_get()] are inputs of each call
      (a [clock]);
    - where the code drops its locks or reads shared variables without
      one, the calls that other contexts make at that point are an input
      too (a list of calls of the event entry points);
    - C integers are [Z] with the wrap-around written out. *)

From Stdlib Require Import ZArith Lia Bool List.
From stdpp Require Import base option list gmap fin_maps strings.

Local Open Scope Z_scope.

(* ================================================================== *)
(** * Machine integers *)
(* ================================================================== *)

(** Modelled from the spec: the spec leaves the width of the counters open
    and the architecture headers that fix [unsigned long] are not among the
    sources.  The msm7x30 is a 32-bit ARM platform: 32 bits.  (On a 64-bit
    platform the bounds on tick distances below would read [2^63] where
    they read [2^31].) *)
Definition BITS_PER_LONG : Z := 32.

Definition ULONG_MOD : Z := 2 ^ BITS_PER_LONG.

(** Value of an arithmetic result stored in an [unsigned long]. *)
Definition ulong (x : Z) : Z := x mod ULONG_MOD.

(** The cast [(long)x]. *)
Definition slong (x : Z) : Z := (x + ULONG_MOD / 2) mod ULONG_MOD - ULONG_MOD / 2.

(** The cast [(unsigned int)x]. *)
Definition uint (x : Z) : Z := x mod 2 ^ 32.

(** Value of an arithmetic result stored in an [int] (two's complement). *)
Definition sint (x : Z) : Z := (x + 2 ^ 31) mod 2 ^ 32 - 2 ^ 31.

(** Modelled from the spec: [atomic_t] and its operations come from
    headers that are not among the sources.  The spec calls [event_count]
    and [events_in_progress] atomic counters that are incremented and
    decremented; an [atomic_t] holds an [int], and the three operations
    wakeup.c uses read it, add one and subtract one, wrapping. *)
Definition atomic_read (v : Z) : Z := v.
Definition atomic_inc (v : Z) : Z := sint (v + 1).
Definition atomic_dec (v : Z) : Z := sint (v - 1).

(* ================================================================== *)
(** * Time *)
(* ================================================================== *)

(** What a call reads from the timekeeping code: the tick counter
    [jiffies] (an [unsigned long]) and the result of [ktime_get()].  The
    event entry points run with interrupts disabled
    ([spin_lock_irqsave]), and the tick counter is advanced by the timer
    interrupt of the one processor of this platform: it does not advance
    during a call, and one value of [jiffies] serves it.  [ktime_get()]
    reads the hardware clock, and each call of it returns the time of
    that moment.  [__pm_wakeup_event] with a zero timeout calls it in
    [wakeup_source_activate], if the source is idle, and afterwards in
    [wakeup_source_deactivate]: [ktime_get] is the time at the first of
    these two points and [ktime_get_late] the time at the second.  The
    other entry points read the time at one point, as [ktime_get]. *)
Record clock := Clock { jiffies : Z; ktime_get : Z; ktime_get_late : Z }.

(** The clock as a call finds it at the second of these points. *)
Definition late (clk : clock) : clock :=
  Clock (jiffies clk) (ktime_get_late clk) (ktime_get_late clk).

(** Modelled from the spec: [ktime_t] and its helpers [ktime_sub],
    [ktime_add] and [ktime_to_ns] come from a header that is not among the
    sources.  The spec computes "window duration = now - last_time" and
    "accumulates into total_time": a [ktime_t] is a number of nanoseconds
    and the helpers are subtraction, addition and the identity. *)
Definition ktime_sub (a b : Z) : Z := a - b.
Definition ktime_add (a b : Z) : Z := a + b.
Definition ktime_to_ns (a : Z) : Z := a.

(** Modelled from the spec: the macro [time_after] comes from a header that
    is not among the sources.  The spec leaves a timer untouched when it is
    "already scheduled for a later or equal deadline"; on the wrapping tick
    counter "a is later than b" is the kernel's [(long)(b) - (long)(a) < 0],
    which is [b < a] whenever the two are less than half the counter range
    apart (lemma [time_after_window]). *)
Definition time_after (a b : Z) : bool := slong (slong b - slong a) <? 0.

(** Modelled from the spec: [MAX_JIFFY_OFFSET], the largest delay the timer
    code accepts, [(LONG_MAX >> 1) - 1]. *)
Definition MAX_JIFFY_OFFSET : Z := (ULONG_MOD / 2 - 1) / 2 - 1.

(** Modelled from the spec: [msecs_to_jiffies] is defined outside the
    sources.  The spec only says that the deadline is "now + timeout" in
    clock ticks and that the timer fires "no earlier than" it.  This is the
    conversion for a tick rate [hz] that divides 1000: round up, and
    saturate for arguments that are negative as [int].  The operations take
    the conversion as a parameter; this instance serves the examples. *)
Definition msecs_to_jiffies_hz (hz : Z) (m : Z) : Z :=
  if sint m <? 0 then MAX_JIFFY_OFFSET
  else (m + 1000 / hz - 1) / (1000 / hz).

(* ================================================================== *)
(** * Data model *)
(* ================================================================== *)

Abbreviation loc := positive.

(** Modelled from the spec: [struct wakeup_source] is declared in a header
    that is not among the sources; these are the fields wakeup.c accesses
    (spec, section 3).  The counters and [timer_expires] are
    [unsigned long], the three times are [ktime_t], [active] is a one-bit
    field.  [timer] stands for the embedded [struct timer_list]: [Some e]
    when the timer is pending with expiry [e].  The lock and the list
    linkage have no content of their own in the model. *)
Module WS.
Record t := mk {
  name : option string;
  timer : option Z;
  timer_expires : Z;
  total_time : Z;
  max_time : Z;
  last_time : Z;
  event_count : Z;
  active_count : Z;
  relax_count : Z;
  hit_count : Z;
  active : bool
}.

Definition set_name (v : option string) (w : t) : t :=
  mk v (timer w) (timer_expires w) (total_time w) (max_time w)
     (last_time w) (event_count w) (active_count w) (relax_count w)
     (hit_count w) (active w).
Definition set_timer (v : option Z) (w : t) : t :=
  mk (name w) v (timer_expires w) (total_time w) (max_time w)
     (last_time w) (event_count w) (active_count w) (relax_count w)
     (hit_count w) (active w).
Definition set_timer_expires (v : Z) (w : t) : t :=
  mk (name w) (timer w) v (total_time w) (max_time w)
     (last_time w) (event_count w) (active_count w) (relax_count w)
     (hit_count w) (active w).
Definition set_total_time (v : Z) (w : t) : t :=
  mk (name w) (timer w) (timer_expires w) v (max_time w)
     (last_time w) (event_count w) (active_count w) (relax_count w)
     (hit_count w) (active w).
Definition set_max_time (v : Z) (w : t) : t :=
  mk (name w) (timer w) (timer_expires w) (total_time w) v
     (last_time w) (event_count w) (active_count w) (relax_count w)
     (hit_count w) (active w).
Definition set_last_time (v : Z) (w : t) : t :=
  mk (name w) (timer w) (timer_expires w) (total_time w) (max_time w)
     v (event_count w) (active_count w) (relax_count w)
     (hit_count w) (active w).
Definition set_event_count (v : Z) (w : t) : t :=
  mk (name w) (timer w) (timer_expires w) (total_time w) (max_time w)
     (last_time w) v (active_count w) (relax_count w)
     (hit_count w) (active w).
Definition set_active_count (v : Z) (w : t) : t :=
  mk (name w) (timer w) (timer_expires w) (total_time w) (max_time w)
     (last_time w) (event_count w) v (relax_count w)
     (hit_count w) (active w).
Definition set_relax_count (v : Z) (w : t) : t :=
  mk (name w) (timer w) (timer_expires w) (total_time w) (max_time w)
     (last_time w) (event_count w) (active_count w) v
     (hit_count w) (active w).
Definition set_hit_count (v : Z) (w : t) : t :=
  mk (name w) (timer w) (timer_expires w) (total_time w) (max_time w)
     (last_time w) (event_count w) (active_count w) (relax_count w)
     v (active w).
Definition set_active (v : bool) (w : t) : t :=
  mk (name w) (timer w) (timer_expires w) (total_time w) (max_time w)
     (last_time w) (event_count w) (active_count w) (relax_count w)
     (hit_count w) v.
End WS.

Abbreviation wakeup_source := WS.t.

(** The file-scope variables of wakeup.c, the registry list
    [wakeup_sources] (most recently added first, as [list_add_rcu] inserts
    at the head) and the memory holding the allocated wakeup sources. *)
Record pm := Pm {
  events_check_enabled : bool;
  event_count : Z;
  saved_count : Z;
  events_in_progress : Z;
  wakeup_sources : list loc;
  mem : gmap loc wakeup_source
}.

Definition set_events_check_enabled (v : bool) (s : pm) : pm :=
  Pm v (event_count s) (saved_count s) (events_in_progress s)
     (wakeup_sources s) (mem s).
Definition set_event_count (v : Z) (s : pm) : pm :=
  Pm (events_check_enabled s) v (saved_count s) (events_in_progress s)
     (wakeup_sources s) (mem s).
Definition set_saved_count (v : Z) (s : pm) : pm :=
  Pm (events_check_enabled s) (event_count s) v (events_in_progress s)
     (wakeup_sources s) (mem s).
Definition set_events_in_progress (v : Z) (s : pm) : pm :=
  Pm (events_check_enabled s) (event_count s) (saved_count s) v
     (wakeup_sources s) (mem s).
Definition set_wakeup_sources (v : list loc) (s : pm) : pm :=
  Pm (events_check_enabled s) (event_count s) (saved_count s)
     (events_in_progress s) v (mem s).
Definition set_mem (v : gmap loc wakeup_source) (s : pm) : pm :=
  Pm (events_check_enabled s) (event_count s) (saved_count s)
     (events_in_progress s) (wakeup_sources s) v.

(** Write a structure back to its address (the end of a critical section). *)
Definition store (l : loc) (w : wakeup_source) (s : pm) : pm :=
  set_mem (<[l := w]> (mem s)) s.

Arguments store : simpl never.

(** The state at boot: [ATOMIC_INIT(0)] counters, zeroed statics, an empty
    list and no object allocated. *)
Definition pm_init : pm := Pm false 0 0 0 [] ∅.

(* ================================================================== *)
(** * Creation and registration *)
(* ================================================================== *)

(** What [kzalloc] returns: every field zero. *)
Definition kzalloc_ws : wakeup_source :=
  WS.mk None None 0 0 0 0 0 0 0 0 false.

(** Modelled from the spec: [kstrdup] is defined outside the sources.  The
    spec calls the name an "owned string": [kstrdup] answers with a copy of
    the string, or with null when it cannot allocate one; [k] tells
    which. *)
Definition kstrdup (k : bool) (n : string) : option string :=
  if k then Some n else None.

(** [wakeup_source_create].  [a] is the answer of [kzalloc]: [None] when it
    fails, otherwise the address of the new object; [k] tells whether
    [kstrdup] succeeds.  The answer of [kstrdup] is stored unchecked: when
    it fails the source is created all the same, without a name. *)
Definition wakeup_source_create (nm : option string) (a : option loc)
    (k : bool) (s : pm) : option loc * pm :=
  match a with
  | None => (None, s)
  | Some l =>
      let ws := kzalloc_ws in
      let ws := match nm with
                | Some n => WS.set_name (kstrdup k n) ws
                | None => ws
                end in
      (Some l, store l ws s)
  end.

(** [wakeup_source_add]: [setup_timer] leaves the timer not pending.  An
    entry that is on the list already must not be added again:
    [list_add_rcu] would make the list cyclic, and a traversal of it would
    not end.  The model does not follow such a list: no result. *)
Definition wakeup_source_add (p : option loc) (s : pm) : option pm :=
  match p with
  | None => Some s
  | Some l =>
      ws ← mem s !! l;
      let ws := WS.set_timer None ws in
      let ws := WS.set_active false ws in
      let s := store l ws s in
      if decide (l ∈ wakeup_sources s) then None
      else Some (set_wakeup_sources (l :: wakeup_sources s) s)
  end.

(** [wakeup_source_remove]: [list_del_rcu] unlinks the entry.  Unlinking
    an entry that is on no list follows the null (or poisoned) pointers of
    its linkage: a fault. *)
Definition wakeup_source_remove (p : option loc) (s : pm) : option pm :=
  match p with
  | None => Some s
  | Some l =>
      _ ← mem s !! l;
      if decide (l ∈ wakeup_sources s) then
        Some (set_wakeup_sources
                (filter (λ l', l' ≠ l) (wakeup_sources s)) s)
      else None
  end.

(** [wakeup_source_register]. *)
Definition wakeup_source_register (nm : option string) (a : option loc)
    (k : bool) (s : pm) : option (option loc * pm) :=
  let '(ws, s) := wakeup_source_create nm a k s in
  match ws with
  | Some _ => s' ← wakeup_source_add ws s; Some (ws, s')
  | None => Some (ws, s)
  end.

(* ================================================================== *)
(** * Activation and deactivation *)
(* ================================================================== *)

(** [wakeup_source_activate], on the structure held under its lock. *)
Definition wakeup_source_activate (clk : clock) (ws : wakeup_source) (s : pm)
  : wakeup_source * pm :=
  let ws := WS.set_active true ws in
  let ws := WS.set_active_count (ulong (WS.active_count ws + 1)) ws in
  let ws := WS.set_timer_expires (jiffies clk) ws in
  let ws := WS.set_last_time (ktime_get clk) ws in
  (ws, set_events_in_progress (atomic_inc (events_in_progress s)) s).

(** The accesses of [wakeup_source_deactivate] to the shared counters, in
    program order. *)
Inductive atomic_op :=
  | atomic_inc_event_count
  | smp_mb__before_atomic_dec
  | atomic_dec_events_in_progress.

Definition deactivate_atomics : list atomic_op :=
  [atomic_inc_event_count; smp_mb__before_atomic_dec;
   atomic_dec_events_in_progress].

Definition atomic_step (s : pm) (o : atomic_op) : pm :=
  match o with
  | atomic_inc_event_count => set_event_count (atomic_inc (event_count s)) s
  | smp_mb__before_atomic_dec => s
  | atomic_dec_events_in_progress =>
      set_events_in_progress (atomic_dec (events_in_progress s)) s
  end.

(** [wakeup_source_deactivate], on the structure held under its lock. *)
Definition wakeup_source_deactivate (clk : clock) (ws : wakeup_source) (s : pm)
  : wakeup_source * pm :=
  let ws := WS.set_relax_count (ulong (WS.relax_count ws + 1)) ws in
  if negb (WS.relax_count ws =? WS.active_count ws) then
    (WS.set_relax_count (ulong (WS.relax_count ws - 1)) ws, s)
  else
    let ws := WS.set_active false ws in
    let now := ktime_get clk in
    let duration := ktime_sub now (WS.last_time ws) in
    let ws := WS.set_total_time (ktime_add (WS.total_time ws) duration) ws in
    let ws := if ktime_to_ns duration >? ktime_to_ns (WS.max_time ws)
              then WS.set_max_time duration ws else ws in
    let ws := WS.set_timer None ws in
    (ws, foldl atomic_step s deactivate_atomics).

(** [__pm_stay_awake]. *)
Definition __pm_stay_awake (clk : clock) (p : option loc) (s : pm) : option pm :=
  match p with
  | None => Some s
  | Some l =>
      ws ← mem s !! l;
      let ws := WS.set_event_count (ulong (WS.event_count ws + 1)) ws in
      let '(ws, s) := if negb (WS.active ws)
                      then wakeup_source_activate clk ws s else (ws, s) in
      Some (store l ws s)
  end.

(** [__pm_relax]. *)
Definition __pm_relax (clk : clock) (p : option loc) (s : pm) : option pm :=
  match p with
  | None => Some s
  | Some l =>
      ws ← mem s !! l;
      let '(ws, s) := if WS.active ws
                      then wakeup_source_deactivate clk ws s else (ws, s) in
      Some (store l ws s)
  end.

(** [pm_wakeup_timer_fn]: what the timer runs when it expires. *)
Definition pm_wakeup_timer_fn (clk : clock) (data : option loc) (s : pm)
  : option pm :=
  __pm_relax clk data s.

Section Jiffies.

(** The conversion from milliseconds to ticks, defined outside the
    sources. *)
Variable msecs_to_jiffies : Z → Z.

(** [__pm_wakeup_event].  With a zero timeout [wakeup_source_deactivate]
    runs in the same call, after [wakeup_source_activate] if the source was
    idle, and reads the time anew. *)
Definition __pm_wakeup_event (clk : clock) (p : option loc) (msec : Z) (s : pm)
  : option pm :=
  match p with
  | None => Some s
  | Some l =>
      ws ← mem s !! l;
      let ws := WS.set_event_count (ulong (WS.event_count ws + 1)) ws in
      let '(ws, s) := if negb (WS.active ws)
                      then wakeup_source_activate clk ws s else (ws, s) in
      if msec =? 0 then
        let '(ws, s) := wakeup_source_deactivate (late clk) ws s in
        Some (store l ws s)
      else
        let expires := ulong (jiffies clk + msecs_to_jiffies msec) in
        let expires := if expires =? 0 then 1 else expires in
        let ws := if time_after expires (WS.timer_expires ws)
                  then WS.set_timer_expires expires
                         (WS.set_timer (Some expires) ws)
                  else ws in
        Some (store l ws s)
  end.

(* ================================================================ *)
(** * Interleavings of the event entry points *)
(* ================================================================ *)

(** One call of an event entry point on some wakeup source; [op_timer]
    is the expiry of a source's timer. *)
Inductive pm_op :=
  | op_stay_awake (ws : option loc)
  | op_relax (ws : option loc)
  | op_wakeup_event (ws : option loc) (msec : Z)
  | op_timer (data : option loc).

Definition op_target (o : pm_op) : option loc :=
  match o with
  | op_stay_awake p | op_relax p | op_wakeup_event p _ | op_timer p => p
  end.

Definition pm_step (c : clock * pm_op) (s : pm) : option pm :=
  match c.2 with
  | op_stay_awake p => __pm_stay_awake c.1 p s
  | op_relax p => __pm_relax c.1 p s
  | op_wakeup_event p msec => __pm_wakeup_event c.1 p msec s
  | op_timer p => pm_wakeup_timer_fn c.1 p s
  end.

(** The calls of a schedule, one after the other; each comes with the
    clock it reads. *)
Fixpoint pm_run (cs : list (clock * pm_op)) (s : pm) : option pm :=
  match cs with
  | [] => Some s
  | c :: cs => s' ← pm_step c s; pm_run cs s'
  end.

(* ================================================================ *)
(** * Quiescence protocol *)
(* ================================================================ *)

(** The body of the loop of [pm_wakeup_update_hit_counts]. *)
Definition hit_entry (l : loc) (s : pm) : option pm :=
  ws ← mem s !! l;
  let ws := if WS.active ws
            then WS.set_hit_count (ulong (WS.hit_count ws + 1)) ws
            else ws in
  Some (store l ws s).

(** [list_for_each_entry_rcu]. *)
Fixpoint list_for_each_entry (f : loc → pm → option pm) (ls : list loc)
    (s : pm) : option pm :=
  match ls with
  | [] => Some s
  | l :: ls => s' ← f l s; list_for_each_entry f ls s'
  end.

(** [pm_wakeup_update_hit_counts]. *)
Definition pm_wakeup_update_hit_counts (s : pm) : option pm :=
  list_for_each_entry hit_entry (wakeup_sources s) s.

(** [pm_check_wakeup_events]. *)
Definition pm_check_wakeup_events (s : pm) : option (bool * pm) :=
  let ret := true in
  let '(ret, s) :=
    if events_check_enabled s then
      let ret := (uint (atomic_read (event_count s)) =? saved_count s)
                 && (atomic_read (events_in_progress s) =? 0) in
      (ret, set_events_check_enabled ret s)
    else (ret, s) in
  if negb ret then
    s' ← pm_wakeup_update_hit_counts s; Some (ret, s')
  else Some (ret, s).

(** [pm_save_wakeup_count]. *)
Definition pm_save_wakeup_count (count : Z) (s : pm) : option (bool * pm) :=
  let ret := false in
  let '(ret, s) :=
    if (count =? uint (atomic_read (event_count s)))
       && (atomic_read (events_in_progress s) =? 0) then
      let s := set_saved_count count s in
      let s := set_events_check_enabled true s in
      (true, s)
    else (ret, s) in
  if negb ret then
    s' ← pm_wakeup_update_hit_counts s; Some (ret, s')
  else Some (ret, s).

(** What surrounds a call of [pm_get_wakeup_count]: the answer of
    [capable(CAP_SYS_ADMIN)], the answer of [signal_pending(current)] at
    each evaluation of the loop condition, and the calls other contexts
    make meanwhile.  The function reads the two counters without holding a
    lock, so such calls can fall between any two of its steps:
    - [racing i], after the [i]-th evaluation of the loop condition: before
      the pass over the hit counts when the loop goes on, before
      [events_in_progress] is read again for the result when it ends;
    - [others i], after that pass, while the caller sleeps in
      [schedule_timeout_interruptible];
    - [before_count], between the read of [events_in_progress] for the
      result and the read of [event_count].
    (A call made during the pass commutes with the update of the hit count
    of every source but its own, lemma [hit_entry_commutes], so it counts
    as made before the pass or after it.) *)
Record get_env := GetEnv {
  capable : bool;
  signal_pending : nat → bool;
  racing : nat → list (clock * pm_op);
  others : nat → list (clock * pm_op);
  before_count : list (clock * pm_op)
}.

(** The loop of [pm_get_wakeup_count]; [i] counts the iterations done.
    The result, the state in which [events_in_progress] is read again
    after the loop, is [None] when [fuel] iterations do not end the wait,
    or on a fault. *)
Fixpoint get_wait (e : get_env) (fuel i : nat) (s : pm) : option pm :=
  match fuel with
  | O => None
  | S fuel =>
      let go_on := negb (atomic_read (events_in_progress s) =? 0)
                   && negb (signal_pending e i) in
      s ← pm_run (racing e i) s;
      if go_on then
        s ← pm_wakeup_update_hit_counts s;
        s ← pm_run (others e i) s;
        get_wait e fuel (S i) s
      else Some s
  end.

(** [pm_get_wakeup_count]: the result, the value stored in [*count] and
    the state in which [event_count] was read. *)
Definition pm_get_wakeup_count (e : get_env) (fuel : nat) (s : pm)
  : option (bool * Z * pm) :=
  let s := if capable e then set_events_check_enabled false s else s in
  s ← get_wait e fuel 0%nat s;
  let ret := atomic_read (events_in_progress s) =? 0 in
  s ← pm_run (before_count e) s;
  let count := uint (atomic_read (event_count s)) in
  Some (ret, count, s).

End Jiffies.

(* ================================================================== *)
(** * Destruction *)
(* ================================================================== *)

(** The loop of [wakeup_source_destroy].  [ws->active] is tested under
    [ws->lock], and the lock is released after each test: for the sleep
    when the source is active, for good when it is not.  [others i] are
    the calls other contexts make after the [i]-th test: during the sleep,
    or between the last test and the [kfree].  The result, the state in
    which the object is freed, is [None] when [fuel] tests do not end the
    wait, or on a fault. *)
Fixpoint destroy_wait (m2j : Z → Z) (others : nat → list (clock * pm_op))
    (fuel i : nat) (l : loc) (s : pm) : option pm :=
  match fuel with
  | O => None
  | S fuel =>
      ws ← mem s !! l;
      s ← pm_run m2j (others i) s;
      if WS.active ws then destroy_wait m2j others fuel (S i) l s
      else Some s
  end.

(** [wakeup_source_destroy]: [kfree] releases the name and the object. *)
Definition wakeup_source_destroy (m2j : Z → Z)
    (others : nat → list (clock * pm_op)) (fuel : nat)
    (p : option loc) (s : pm) : option pm :=
  match p with
  | None => Some s
  | Some l =>
      s ← destroy_wait m2j others fuel 0%nat l s;
      Some (set_mem (delete l (mem s)) s)
  end.

(** [wakeup_source_unregister]. *)
Definition wakeup_source_unregister (m2j : Z → Z)
    (others : nat → list (clock * pm_op)) (fuel : nat)
    (p : option loc) (s : pm) : option pm :=
  s ← wakeup_source_remove p s;
  wakeup_source_destroy m2j others fuel p s.

(* ================================================================== *)
(** * Devices *)
(* ================================================================== *)

(** Modelled from the spec: the error numbers come from a header that is
    not among the sources.  The spec names the conditions "invalid
    argument", "already exists" and allocation failure; these are their
    values in the kernel. *)
Definition EINVAL : Z := 22.
Definition EEXIST : Z := 17.
Definition ENOMEM : Z := 12.

(** Modelled from the spec: [struct device] is declared in a header that is
    not among the sources.  Per the spec a device provides "a
    wakeup-capable flag, and a slot for one attached WakeupSource
    reference", guarded by its own lock, and an identifier that names its
    source: the fields [power.can_wakeup], [power.wakeup] and what
    [dev_name] returns. *)
Record device := Device {
  dev_name : string;
  power_can_wakeup : bool;
  power_wakeup : option loc
}.

Definition set_power_can_wakeup (v : bool) (d : device) : device :=
  Device (dev_name d) v (power_wakeup d).
Definition set_power_wakeup (v : option loc) (d : device) : device :=
  Device (dev_name d) (power_can_wakeup d) v.

(** The wakeup framework together with the devices that use it. *)
Record machine := Machine {
  pm_of : pm;
  devices : gmap loc device
}.

Definition set_pm_of (v : pm) (σ : machine) : machine :=
  Machine v (devices σ).
Definition set_devices (v : gmap loc device) (σ : machine) : machine :=
  Machine (pm_of σ) v.

(** Modelled from the spec: [device_set_wakeup_capable] is an inline
    function of a header that is not among the sources; it "sets the
    device's wakeup-capable flag". *)
Definition device_set_wakeup_capable (dev : option loc) (capable : bool)
    (σ : machine) : option machine :=
  d ← dev;
  dv ← devices σ !! d;
  Some (set_devices (<[d := set_power_can_wakeup capable dv]> (devices σ)) σ).

(** [device_wakeup_attach]; its callers pass a device that is not null. *)
Definition device_wakeup_attach (d : loc) (ws : option loc) (σ : machine)
  : option (Z * machine) :=
  dv ← devices σ !! d;
  match power_wakeup dv with
  | Some _ => Some (- EEXIST, σ)
  | None =>
      Some (0, set_devices (<[d := set_power_wakeup ws dv]> (devices σ)) σ)
  end.

(** [device_wakeup_enable].  [a] and [k] are the answers of the
    allocator to [wakeup_source_create]; [others] and [fuel] belong to the
    wait of [wakeup_source_destroy] on the failure path. *)
Definition device_wakeup_enable (m2j : Z → Z) (a : option loc) (k : bool)
    (others : nat → list (clock * pm_op)) (fuel : nat)
    (dev : option loc) (σ : machine) : option (Z * machine) :=
  match dev with
  | None => Some (- EINVAL, σ)
  | Some d =>
      dv ← devices σ !! d;
      if negb (power_can_wakeup dv) then Some (- EINVAL, σ)
      else
        r ← wakeup_source_register (Some (dev_name dv)) a k (pm_of σ);
        let ws := r.1 in
        let σ := set_pm_of r.2 σ in
        match ws with
        | None => Some (- ENOMEM, σ)
        | Some _ =>
            r ← device_wakeup_attach d ws σ;
            let ret := r.1 in
            let σ := r.2 in
            if negb (ret =? 0) then
              s ← wakeup_source_unregister m2j others fuel ws (pm_of σ);
              Some (ret, set_pm_of s σ)
            else Some (ret, σ)
        end
  end.

(** [device_wakeup_detach]; its caller passes a device that is not null. *)
Definition device_wakeup_detach (d : loc) (σ : machine)
  : option (option loc * machine) :=
  dv ← devices σ !! d;
  let ws := power_wakeup dv in
  Some (ws, set_devices (<[d := set_power_wakeup None dv]> (devices σ)) σ).

(** [device_wakeup_disable]. *)
Definition device_wakeup_disable (m2j : Z → Z)
    (others : nat → list (clock * pm_op)) (fuel : nat)
    (dev : option loc) (σ : machine) : option (Z * machine) :=
  match dev with
  | None => Some (- EINVAL, σ)
  | Some d =>
      dv ← devices σ !! d;
      if negb (power_can_wakeup dv) then Some (- EINVAL, σ)
      else
        r ← device_wakeup_detach d σ;
        let ws := r.1 in
        let σ := r.2 in
        match ws with
        | Some _ =>
            s ← wakeup_source_unregister m2j others fuel ws (pm_of σ);
            Some (0, set_pm_of s σ)
        | None => Some (0, σ)
        end
  end.

(** [device_init_wakeup]. *)
Definition device_init_wakeup (m2j : Z → Z) (a : option loc) (k : bool)
    (others : nat → list (clock * pm_op)) (fuel : nat)
    (dev : option loc) (enable : bool) (σ : machine) : option (Z * machine) :=
  let ret := 0 in
  if enable then
    σ ← device_set_wakeup_capable dev true σ;
    device_wakeup_enable m2j a k others fuel dev σ
  else
    σ ← device_set_wakeup_capable dev false σ;
    Some (ret, σ).

(** [device_set_wakeup_enable]. *)
Definition device_set_wakeup_enable (m2j : Z → Z) (a : option loc)
    (k : bool) (others : nat → list (clock * pm_op)) (fuel : nat)
    (dev : option loc) (enable : bool) (σ : machine) : option (Z * machine) :=
  match dev with
  | None => Some (- EINVAL, σ)
  | Some d =>
      dv ← devices σ !! d;
      if negb (power_can_wakeup dv) then Some (- EINVAL, σ)
      else if enable then device_wakeup_enable m2j a k others fuel dev σ
           else device_wakeup_disable m2j others fuel dev σ
  end.

(** [pm_stay_awake]. *)
Definition pm_stay_awake (clk : clock) (dev : option loc) (σ : machine)
  : option machine :=
  match dev with
  | None => Some σ
  | Some d =>
      dv ← devices σ !! d;
      s ← __pm_stay_awake clk (power_wakeup dv) (pm_of σ);
      Some (set_pm_of s σ)
  end.

(** [pm_relax]. *)
Definition pm_relax (clk : clock) (dev : option loc) (σ : machine)
  : option machine :=
  match dev with
  | None => Some σ
  | Some d =>
      dv ← devices σ !! d;
      s ← __pm_relax clk (power_wakeup dv) (pm_of σ);
      Some (set_pm_of s σ)
  end.

(** [pm_wakeup_event]. *)
Definition pm_wakeup_event (m2j : Z → Z) (clk : clock) (dev : option loc)
    (msec : Z) (σ : machine) : option machine :=
  match dev with
  | None => Some σ
  | Some d =>
      dv ← devices σ !! d;
      s ← __pm_wakeup_event m2j clk (power_wakeup dv) msec (pm_of σ);
      Some (set_pm_of s σ)
  end.

(* ================================================================== *)
(** * Predicates and functions of the statements *)
(* ================================================================== *)

Definition b2z (b : bool) : Z := if b then 1 else 0.

(** The registry only holds addresses of allocated objects. *)
Definition registry_ok (s : pm) : Prop :=
  ∀ l, l ∈ wakeup_sources s → is_Some (mem s !! l).

(** What [pm_wakeup_update_hit_counts] does to one structure. *)
Definition hit (w : wakeup_source) : wakeup_source :=
  if WS.active w then WS.set_hit_count (ulong (WS.hit_count w + 1)) w else w.

(** The per-source invariant: both counters are [unsigned long] values and
    [active_count - relax_count], computed in [unsigned long], is 1 while
    the source is active and 0 while it is not. *)
Definition ws_inv (w : wakeup_source) : Prop :=
  0 ≤ WS.active_count w < ULONG_MOD
  ∧ 0 ≤ WS.relax_count w < ULONG_MOD
  ∧ ulong (WS.active_count w - WS.relax_count w)
    = (if WS.active w then 1 else 0).

(** What [wakeup_source_deactivate] does when it closes the window. *)
Definition close_window (clk : clock) (w : wakeup_source) : wakeup_source :=
  let d := ktime_get clk - WS.last_time w in
  WS.mk (WS.name w) None (WS.timer_expires w) (WS.total_time w + d)
        (if d >? WS.max_time w then d else WS.max_time w)
        (WS.last_time w) (WS.event_count w) (WS.active_count w)
        (ulong (WS.relax_count w + 1)) (WS.hit_count w) false.

(** The sources whose window is open. *)
Definition active_sources (s : pm) : gmap loc wakeup_source :=
  filter (λ kw : loc * wakeup_source, WS.active kw.2 = true) (mem s).

(** The invariant of the whole system: every allocated source satisfies
    [ws_inv], [events_in_progress] counts the open windows, and there are
    fewer objects than an [int] can count. *)
Definition pm_inv (s : pm) : Prop :=
  (∀ l w, mem s !! l = Some w → ws_inv w)
  ∧ events_in_progress s = Z.of_nat (size (active_sources s))
  ∧ Z.of_nat (size (mem s)) < 2 ^ 31.

(** What a call of an event entry point leaves alone. *)
Definition same_frame (s s' : pm) : Prop :=
  dom (mem s') = dom (mem s)
  ∧ wakeup_sources s' = wakeup_sources s
  ∧ events_check_enabled s' = events_check_enabled s
  ∧ saved_count s' = saved_count s.

(** The sources a schedule touches are allocated (or null). *)
Definition schedule_ok (s : pm) (cs : list (clock * pm_op)) : Prop :=
  ∀ c l, c ∈ cs → op_target c.2 = Some l → is_Some (mem s !! l).

(** A system in which no event has been reported yet: no window is open
    and every allocated source is as [wakeup_source_create] made it. *)
Definition fresh_system (s : pm) : Prop :=
  events_in_progress s = 0
  ∧ (∀ l w, mem s !! l = Some w → ∃ nm, w = WS.set_name nm kzalloc_ws)
  ∧ Z.of_nat (size (mem s)) < 2 ^ 31.

(** The value [__pm_wakeup_event] computes in [expires]. *)
Definition timer_deadline (m2j : Z → Z) (clk : clock) (msec : Z) : Z :=
  let expires := ulong (jiffies clk + m2j msec) in
  if expires =? 0 then 1 else expires.

(** The source at [l] is active and its timer is pending with expiry [e],
    which is also what [timer_expires] records. *)
Definition deadline_in_effect (s : pm) (l : loc) (e : Z) : Prop :=
  ∃ w, mem s !! l = Some w ∧ WS.active w = true
       ∧ WS.timer_expires w = e ∧ WS.timer w = Some e.

(** Arithmetic modulo the word size, by linear reasoning on quotients. *)
Ltac word_lia :=
  unfold b2z, atomic_inc, atomic_dec, atomic_read, MAX_JIFFY_OFFSET,
    ulong, slong, uint, sint, ULONG_MOD, BITS_PER_LONG in *;
  change (2 ^ 32) with 4294967296 in *;
  change (2 ^ 31) with 2147483648 in *;
  change (4294967296 / 2) with 2147483648 in *;
  Z.div_mod_to_equations; lia.

(* ================================================================== *)
(** * Transitions of one source and invariants along a schedule *)
(* ================================================================== *)

(** What a call of an event entry point makes of the source it is called
    on, when that source satisfies [ws_inv]. *)
Definition ws_after (m2j : Z → Z) (c : clock * pm_op) (w : wakeup_source)
  : wakeup_source :=
  let clk := c.1 in
  let w0 := WS.set_event_count (ulong (WS.event_count w + 1)) w in
  let w1 := if WS.active w then w0
            else (wakeup_source_activate clk w0 pm_init).1 in
  match c.2 with
  | op_stay_awake _ => w1
  | op_relax _ | op_timer _ =>
      if WS.active w then close_window clk w else w
  | op_wakeup_event _ msec =>
      if msec =? 0 then close_window (late clk) w1
      else
        let expires := ulong (jiffies clk + m2j msec) in
        let expires := if expires =? 0 then 1 else expires in
        if time_after expires (WS.timer_expires w1)
        then WS.set_timer_expires expires (WS.set_timer (Some expires) w1)
        else w1
  end.

(** Every call of a schedule meets the condition [ok] of the history [h]
    before it, which the call advances to [next h c]. *)
Fixpoint all_ok {H : Type} (next : H → clock * pm_op → H)
    (ok : H → clock * pm_op → Prop) (h : H) (cs : list (clock * pm_op))
  : Prop :=
  match cs with
  | [] => True
  | c :: cs => ok h c ∧ all_ok next ok (next h c) cs
  end.

(** The timer of an idle source is not pending, and a pending timer
    expires at the tick [timer_expires] records. *)
Definition timer_inv (w : wakeup_source) : Prop :=
  (WS.active w = false → WS.timer w = None)
  ∧ (∀ e, WS.timer w = Some e → WS.timer_expires w = e).

(** At time [t]: an open window did not start after [t], and no window was
    longer than the total of all windows. *)
Definition times_inv (t : Z) (w : wakeup_source) : Prop :=
  (WS.active w = true → WS.last_time w ≤ t)
  ∧ 0 ≤ WS.max_time w ≤ WS.total_time w.

(** The time read by the last call of a schedule that starts at time
    [t]. *)
Definition last_clock (t : Z) (cs : list (clock * pm_op)) : Z :=
  foldl (λ _ c, ktime_get c.1) t cs.

(** The calls of the schedule read times that do not decrease, starting
    at or after [t]: no call reads an earlier time than the call before
    it, and within a call the second reading is not before the first. *)
Definition clocks_from (t : Z) (cs : list (clock * pm_op)) : Prop :=
  all_ok (λ _ c, ktime_get c.1)
         (λ t c, t ≤ ktime_get c.1 ≤ ktime_get_late c.1) t cs.

(** Calls of [__pm_stay_awake] on one source, at the given clocks. *)
Definition stay_awake_calls (l : loc) (clks : list clock)
  : list (clock * pm_op) :=
  (λ clk, (clk, op_stay_awake (Some l))) <$> clks.

(** The calls of a schedule that are made on the source at [l] only end
    events: they are calls of [__pm_relax] and expiries of its timer. *)
Definition only_relaxes (l : loc) (cs : list (clock * pm_op)) : Prop :=
  ∀ c, c ∈ cs → op_target c.2 = Some l →
       c.2 = op_relax (Some l) ∨ c.2 = op_timer (Some l).



(** The devices' bindings are sound: an attached source is registered and
    allocated, and no source is attached to two devices. *)
Definition bindings_ok (σ : machine) : Prop :=
  ∀ d dv l,
    devices σ !! d = Some dv → power_wakeup dv = Some l →
    l ∈ wakeup_sources (pm_of σ)
    ∧ is_Some (mem (pm_of σ) !! l)
    ∧ ∀ d' dv', devices σ !! d' = Some dv' → power_wakeup dv' = Some l →
                d' = d.

(* ================================================================== *)
(** * Example states *)
(* ================================================================== *)

(** One registered source named "rtc" at address 1, nothing reported
    yet. *)
Definition example_system : pm :=
  match wakeup_source_register (Some "rtc") (Some 1%positive) true pm_init
  with
  | Some (_, s) => s
  | None => pm_init
  end.

(** A schedule on that source: an explicit window, a timed event, the
    expiry of its timer, a call on a null pointer and an immediate event. *)
Definition example_schedule : list (clock * pm_op) :=
  [ (Clock 100 1000 1000, op_stay_awake (Some 1%positive));
    (Clock 103 1030 1030, op_relax (Some 1%positive));
    (Clock 110 1100 1100, op_wakeup_event (Some 1%positive) 50);
    (Clock 115 1150 1150, op_timer (Some 1%positive));
    (Clock 116 1160 1160, op_relax None);
    (Clock 120 1200 1207, op_wakeup_event (Some 1%positive) 0) ].

(** The same system with the source's window open since tick 90. *)
Definition example_busy : pm :=
  default pm_init
    (__pm_stay_awake (Clock 90 900 900) (Some 1%positive) example_system).

(** An unprivileged caller of [pm_get_wakeup_count] that is alone on the
    machine and receives a signal during its second sleep. *)
Definition example_alone : get_env :=
  GetEnv false (λ i, (2 <=? i)%nat) (λ _, []) (λ _, []) [].

(** A privileged caller of [pm_get_wakeup_count]; a signal is pending from
    the second test on, and the other contexts replay the schedule above
    during each sleep. *)
Definition example_env : get_env :=
  GetEnv true (λ i, (1 <=? i)%nat) (λ _, []) (λ _, example_schedule) [].


(** A machine at boot with one wakeup-capable device at address 7 that has
    no wakeup source yet. *)
Definition example_machine : machine :=
  Machine pm_init {[ 7%positive := Device "rtc0" true None ]}.

(** The same machine after [device_wakeup_enable] has bound the device to
    a source at address 1. *)
Definition example_attached : machine :=
  default example_machine
    (snd <$> device_wakeup_enable (msecs_to_jiffies_hz 100) (Some 1%positive)
               true (λ _, []) 0 (Some 7%positive) example_machine).

(* ================================================================== *)
(** * Basic facts *)
(* ================================================================== *)

(** The counters wrap: [ULONG_MAX + 1] is 0, [INT_MAX + 1] is [INT_MIN],
    and [(unsigned int)-1] is [UINT_MAX]. *)
Example integers_wrap :
  ulong (4294967295 + 1) = 0
  ∧ atomic_inc 2147483647 = -2147483648
  ∧ atomic_dec 0 = -1
  ∧ uint (-1) = 4294967295
  ∧ slong 4294967295 = -1.
Proof. by vm_compute. Qed.

(** [time_after] on ordinary ticks and across the wrap of the counter. *)
Example time_after_examples :
  time_after 1011 1010 = true
  ∧ time_after 1010 1010 = false
  ∧ time_after 1005 1010 = false
  ∧ time_after 2 4294967290 = true
  ∧ time_after 4294967290 2 = false.
Proof. by vm_compute. Qed.

(** At 100 ticks per second a tick is 10 ms and the conversion rounds
    up. *)
Example msecs_to_jiffies_examples :
  msecs_to_jiffies_hz 100 100 = 10
  ∧ msecs_to_jiffies_hz 100 50 = 5
  ∧ msecs_to_jiffies_hz 100 200 = 20
  ∧ msecs_to_jiffies_hz 100 1 = 1
  ∧ msecs_to_jiffies_hz 100 4294967295 = MAX_JIFFY_OFFSET
  ∧ msecs_to_jiffies_hz 1000 50 = 50.
Proof. by vm_compute. Qed.

Lemma store_store l w w' s : store l w (store l w' s) = store l w s.
Proof. unfold store, set_mem. simpl. by rewrite insert_insert_eq. Qed.

Lemma store_same l w s : mem s !! l = Some w → store l w s = s.
Proof.
  intros H. destruct s as [en ec sc ip reg m]. unfold store, set_mem. simpl in *.
  f_equal. by apply insert_id.
Qed.

Lemma mem_store l w s : mem (store l w s) = <[l := w]> (mem s).
Proof. reflexivity. Qed.

Lemma lookup_store_eq l w s : mem (store l w s) !! l = Some w.
Proof. unfold store. simpl. apply lookup_insert_eq. Qed.

Lemma lookup_store_ne l l' w s : l ≠ l' → mem (store l w s) !! l' = mem s !! l'.
Proof. intros H. unfold store. simpl. by apply lookup_insert_ne. Qed.

Lemma hit_entry_eq l w s :
  mem s !! l = Some w → hit_entry l s = Some (store l (hit w) s).
Proof. intros H. unfold hit_entry. by rewrite H. Qed.

Lemma for_each_hit_entry ls : ∀ s,
  (∀ l, l ∈ ls → is_Some (mem s !! l)) →
  ∃ s', list_for_each_entry hit_entry ls s = Some s'
        ∧ events_check_enabled s' = events_check_enabled s
        ∧ event_count s' = event_count s
        ∧ saved_count s' = saved_count s
        ∧ events_in_progress s' = events_in_progress s
        ∧ wakeup_sources s' = wakeup_sources s
        ∧ dom (mem s') = dom (mem s)
        ∧ ∀ l, mem s' !! l
               = Nat.iter (length (filter (λ l', l' = l) ls)) hit <$> mem s !! l.
Proof.
  induction ls as [|l ls IH]; intros s Hok; simpl.
  - exists s. repeat split; try done. intros l. by destruct (mem s !! l).
  - destruct (Hok l) as [w Hw]; [left|].
    rewrite (hit_entry_eq l w s Hw). simpl.
    destruct (IH (store l (hit w) s)) as (s' & Hrun & H1 & H2 & H3 & H4 & H5 & H6 & H7).
    { intros l' Hl'. destruct (decide (l = l')) as [<-|Hne].
      - rewrite lookup_store_eq. eauto.
      - rewrite lookup_store_ne by done. apply Hok. by right. }
    exists s'. rewrite Hrun. split; [done|]. do 5 (split; [done|]). split.
    + rewrite H6, mem_store, dom_insert_L.
      apply subseteq_union_1_L, singleton_subseteq_l. by eapply elem_of_dom_2.
    + intros l'. rewrite H7. rewrite filter_cons.
      destruct (decide (l = l')) as [<-|Hne].
      * rewrite lookup_store_eq, Hw. simpl. f_equal.
        apply Nat.iter_swap.
      * by rewrite lookup_store_ne by done.
Qed.

(** [pm_wakeup_update_hit_counts] returns on a sound registry, touches no
    file-scope variable, and bumps [hit_count] of the registered active
    sources only (once per occurrence in the list). *)
Lemma pm_wakeup_update_hit_counts_spec s :
  registry_ok s →
  ∃ s', pm_wakeup_update_hit_counts s = Some s'
        ∧ events_check_enabled s' = events_check_enabled s
        ∧ event_count s' = event_count s
        ∧ saved_count s' = saved_count s
        ∧ events_in_progress s' = events_in_progress s
        ∧ wakeup_sources s' = wakeup_sources s
        ∧ dom (mem s') = dom (mem s)
        ∧ ∀ l, mem s' !! l
               = Nat.iter (length (filter (λ l', l' = l) (wakeup_sources s))) hit
                   <$> mem s !! l.
Proof. intros H. by apply for_each_hit_entry. Qed.

(* ================================================================== *)
(** * Null pointers and inactive sources *)
(* ================================================================== *)

(** C10. Given a null wakeup-source pointer, [__pm_stay_awake],
    [__pm_relax] and [__pm_wakeup_event] return at once and leave the whole
    state, every structure and every file-scope variable, as it was. *)
Theorem null_source_ignored (m2j : Z → Z) (clk : clock) (msec : Z) (s : pm) :
  __pm_stay_awake clk None s = Some s
  ∧ __pm_relax clk None s = Some s
  ∧ __pm_wakeup_event m2j clk None msec s = Some s.
Proof. repeat split. Qed.

(** C7. [__pm_relax] on a source whose [active] flag is clear changes
    nothing: the state after the call is the state before it, so no counter
    or field of any source and no file-scope variable differs. *)
Theorem relax_inactive_noop (clk : clock) (l : loc) (w : wakeup_source) (s : pm) :
  mem s !! l = Some w →
  WS.active w = false →
  __pm_relax clk (Some l) s = Some s.
Proof.
  intros Hw Ha. unfold __pm_relax. rewrite Hw. simpl. rewrite Ha.
  by rewrite store_same.
Qed.

(* ================================================================== *)
(** * Saving and checking the event count *)
(* ================================================================== *)

(** C1. With a sound registry [pm_save_wakeup_count] returns; the result
    is true exactly when [count] equals the current [event_count] (read as
    [unsigned int]) and [events_in_progress] is zero.  On success
    [saved_count] is [count], [events_check_enabled] is set and nothing
    else changes.  On failure the state is the one
    [pm_wakeup_update_hit_counts] produces from the unchanged state, so
    [saved_count] and [events_check_enabled] keep their values. *)
Theorem pm_save_wakeup_count_spec (count : Z) (s : pm) :
  registry_ok s →
  ∃ ret s',
    pm_save_wakeup_count count s = Some (ret, s')
    ∧ (ret = true ↔ count = uint (event_count s) ∧ events_in_progress s = 0)
    ∧ (ret = true →
         saved_count s' = count
         ∧ events_check_enabled s' = true
         ∧ s' = set_events_check_enabled true (set_saved_count count s))
    ∧ (ret = false →
         saved_count s' = saved_count s
         ∧ events_check_enabled s' = events_check_enabled s
         ∧ pm_wakeup_update_hit_counts s = Some s').
Proof.
  intros Hreg. unfold pm_save_wakeup_count, atomic_read.
  destruct (count =? uint (event_count s)) eqn:Hc;
    destruct (events_in_progress s =? 0) eqn:Hp; simpl.
  1: { eexists true, _. split; [reflexivity|]. split; [|split]; [|done|done].
       split; [intros _; lia|done]. }
  all: destruct (pm_wakeup_update_hit_counts_spec s Hreg)
         as (s' & Hrun & H1 & H2 & H3 & H4 & H5 & H6 & H7);
       rewrite Hrun; simpl; exists false, s'; split; [reflexivity|];
       split; [|split]; [|done|done];
       split; [done|intros [? ?]; lia].
Qed.

(** C2. With a sound registry [pm_check_wakeup_events] returns.  When
    [events_check_enabled] is set, the result is
    [event_count == saved_count && events_in_progress == 0] and that value
    is stored back in [events_check_enabled]; when it is clear, the result
    is true and the state is unchanged.  A true result changes nothing
    else; a false result is followed by [pm_wakeup_update_hit_counts]. *)
Theorem pm_check_wakeup_events_spec (s : pm) :
  registry_ok s →
  ∃ ret s',
    pm_check_wakeup_events s = Some (ret, s')
    ∧ (events_check_enabled s = true →
         ret = ((uint (event_count s) =? saved_count s)
                && (events_in_progress s =? 0))
         ∧ events_check_enabled s' = ret)
    ∧ (events_check_enabled s = false → ret = true ∧ s' = s)
    ∧ (ret = true → s' = s)
    ∧ (ret = false →
         pm_wakeup_update_hit_counts (set_events_check_enabled false s)
         = Some s').
Proof.
  intros Hreg. unfold pm_check_wakeup_events, atomic_read.
  destruct (events_check_enabled s) eqn:He.
  - destruct ((uint (event_count s) =? saved_count s)
              && (events_in_progress s =? 0)) eqn:Hr; simpl.
    + exists true, (set_events_check_enabled true s).
      assert (set_events_check_enabled true s = s) as ->.
      { destruct s; simpl in *; by subst. }
      by rewrite He.
    + destruct (pm_wakeup_update_hit_counts_spec
                  (set_events_check_enabled false s) Hreg)
        as (s' & Hrun & H1 & H2 & H3 & H4 & H5 & H6 & H7).
      rewrite Hrun. simpl. exists false, s'. by rewrite H1.
  - simpl. by exists true, s.
Qed.

(* ================================================================== *)
(** * One source: activation windows *)
(* ================================================================== *)

Lemma deactivate_closes clk w s :
  ulong (WS.relax_count w + 1) = WS.active_count w →
  wakeup_source_deactivate clk w s
  = (close_window clk w,
     set_events_in_progress (atomic_dec (events_in_progress s))
       (set_event_count (atomic_inc (event_count s)) s)).
Proof.
  intros H. unfold wakeup_source_deactivate. simpl. rewrite H, Z.eqb_refl. simpl.
  unfold close_window, ktime_sub, ktime_add, ktime_to_ns. rewrite H.
  by destruct (ktime_get clk - WS.last_time w >? WS.max_time w).
Qed.

(** [wakeup_source_deactivate] neither reads nor writes the memory. *)
Lemma deactivate_store clk w l w0 s :
  wakeup_source_deactivate clk w (store l w0 s)
  = ((wakeup_source_deactivate clk w s).1,
     store l w0 (wakeup_source_deactivate clk w s).2).
Proof.
  unfold wakeup_source_deactivate. simpl.
  by destruct (negb (ulong (WS.relax_count w + 1) =? WS.active_count w)).
Qed.

Lemma ws_inv_active_next w :
  ws_inv w → WS.active w = true →
  ulong (WS.relax_count w + 1) = WS.active_count w.
Proof. intros (Ha & Hr & Hd) Hact. rewrite Hact in Hd. word_lia. Qed.

Lemma ws_inv_inactive_eq w :
  ws_inv w → WS.active w = false → WS.relax_count w = WS.active_count w.
Proof. intros (Ha & Hr & Hd) Hact. rewrite Hact in Hd. word_lia. Qed.

(** C5. [__pm_wakeup_event(ws, 0)] and [__pm_stay_awake(ws)] followed at
    once by [__pm_relax(ws)] give the same result from every state: a null
    pointer, an idle source, a source that is already active.  The call
    reads the time where [__pm_stay_awake] reads it and again where
    [__pm_relax] reads it; the two readings are those of the two calls and
    need not be equal.  On a source that satisfies the per-source
    invariant the call ends with [active] clear and one full window added
    to [total_time]: from the first reading to the second when the call
    opened it, from [last_time] to the second reading when it was open
    already. *)
Theorem wakeup_event_zero_refines (m2j : Z → Z) (clk : clock)
    (p : option loc) (s : pm) :
  __pm_wakeup_event m2j clk p 0 s
  = (__pm_stay_awake clk p s ≫= __pm_relax (late clk) p)
  ∧ ∀ l w, p = Some l → mem s !! l = Some w → ws_inv w →
      ∃ s' w',
        __pm_wakeup_event m2j clk p 0 s = Some s'
        ∧ mem s' !! l = Some w'
        ∧ WS.active w' = false
        ∧ WS.total_time w'
          = WS.total_time w
            + (ktime_get_late clk
               - (if WS.active w then WS.last_time w else ktime_get clk))
        ∧ event_count s' = atomic_inc (event_count s).
Proof.
  split.
  - destruct p as [l|]; [|done].
    unfold __pm_wakeup_event, __pm_stay_awake, __pm_relax. simpl.
    destruct (mem s !! l) as [w|] eqn:Hw; [|done]. simpl.
    destruct (WS.active w) eqn:Ha; simpl; rewrite lookup_insert_eq; simpl;
      rewrite ?Ha; rewrite deactivate_store;
      destruct (wakeup_source_deactivate _ _ _) as [w' s']; simpl;
      by rewrite store_store.
  - intros l w -> Hw Hinv. unfold __pm_wakeup_event. rewrite Hw. simpl.
    destruct (WS.active w) eqn:Ha; simpl.
    + rewrite deactivate_closes by (simpl; by apply ws_inv_active_next).
      eexists _, _. split; [reflexivity|]. rewrite lookup_store_eq.
      split; [reflexivity|]. simpl. done.
    + rewrite deactivate_closes
        by (simpl; by rewrite (ws_inv_inactive_eq w Hinv Ha)).
      eexists _, _. split; [reflexivity|]. rewrite lookup_store_eq.
      split; [reflexivity|]. simpl. done.
Qed.

(* ================================================================== *)
(** * The system invariant *)
(* ================================================================== *)

Lemma active_sources_insert (m : gmap loc wakeup_source) l w w' :
  m !! l = Some w →
  Z.of_nat (size (filter (λ kw : loc * wakeup_source, WS.active kw.2 = true)
                    (<[l := w']> m)))
  = Z.of_nat (size (filter (λ kw : loc * wakeup_source, WS.active kw.2 = true) m))
    + b2z (WS.active w') - b2z (WS.active w).
Proof.
  intros Hl.
  set (P := λ kw : loc * wakeup_source, WS.active kw.2 = true).
  assert (Hin : WS.active w = true → filter P m !! l = Some w).
  { intros Ha. by apply map_lookup_filter_Some. }
  assert (Hout : WS.active w = false → filter P m !! l = None).
  { intros Ha. apply map_lookup_filter_None. right. intros x Hx.
    unfold P. simpl. rewrite Hl in Hx. injection Hx as <-. by rewrite Ha. }
  destruct (WS.active w') eqn:Ha'; destruct (WS.active w) eqn:Ha; simpl.
  - rewrite map_filter_insert_True by done.
    rewrite map_size_insert_Some by (rewrite Hin; eauto). lia.
  - rewrite map_filter_insert_True by done.
    rewrite map_size_insert_None by auto. lia.
  - rewrite map_filter_insert_False by (unfold P; simpl; by rewrite Ha').
    rewrite map_filter_delete.
    rewrite <- (insert_delete_id (filter P m) l w) at 2 by auto.
    rewrite (map_size_insert_None l w) by apply lookup_delete_eq. lia.
  - rewrite map_filter_insert_False by (unfold P; simpl; by rewrite Ha').
    rewrite map_filter_delete, delete_id by auto. lia.
Qed.

Lemma active_sources_le (m : gmap loc wakeup_source) :
  (size (filter (λ kw : loc * wakeup_source, WS.active kw.2 = true) m)
   ≤ size m)%nat.
Proof. apply map_subseteq_size, map_filter_subseteq. Qed.

(** Writing back a structure that satisfies [ws_inv], with
    [events_in_progress] following the change of its [active] flag,
    preserves the invariant. *)
Lemma pm_inv_store s s' l w w' :
  pm_inv s → mem s !! l = Some w → ws_inv w' →
  mem s' = mem s →
  events_in_progress s'
  = events_in_progress s + b2z (WS.active w') - b2z (WS.active w) →
  pm_inv (store l w' s').
Proof.
  intros (Hws & Hip & Hsz) Hl Hw' Hm Hp. split; [|split].
  - intros l' w0. destruct (decide (l = l')) as [<-|Hne].
    + rewrite lookup_store_eq. by intros [= <-].
    + rewrite lookup_store_ne by done. rewrite Hm. apply Hws.
  - unfold active_sources. rewrite mem_store, Hm.
    rewrite (active_sources_insert _ _ w) by done.
    change (events_in_progress (store l w' s')) with (events_in_progress s').
    rewrite Hp, Hip. done.
  - rewrite mem_store, Hm.
    rewrite map_size_insert_Some by (rewrite Hl; eauto). done.
Qed.

(** Under the invariant the counter of open windows is within the range of
    [int], with room for the sources that are idle. *)
Lemma pm_inv_range s l w :
  pm_inv s → mem s !! l = Some w →
  b2z (WS.active w) ≤ events_in_progress s
  ∧ events_in_progress s + 1 - b2z (WS.active w) < 2 ^ 31.
Proof.
  intros (Hws & Hip & Hsz) Hl.
  pose proof (active_sources_insert (mem s) l w
                (WS.set_active false w) Hl) as H0.
  pose proof (active_sources_insert (mem s) l w
                (WS.set_active true w) Hl) as H1.
  pose proof (active_sources_le (<[l := WS.set_active true w]> (mem s))) as Hle.
  rewrite map_size_insert_Some in Hle by (rewrite Hl; eauto).
  simpl in H0, H1. unfold active_sources in Hip. lia.
Qed.

Lemma ws_inv_ext w w' :
  WS.active_count w' = WS.active_count w →
  WS.relax_count w' = WS.relax_count w →
  WS.active w' = WS.active w →
  ws_inv w → ws_inv w'.
Proof. unfold ws_inv. by intros -> -> ->. Qed.

Lemma ws_inv_activate clk w s :
  ws_inv w → WS.active w = false →
  ws_inv (wakeup_source_activate clk w s).1.
Proof.
  intros Hinv Ha. pose proof (ws_inv_inactive_eq w Hinv Ha) as Heq.
  destruct Hinv as (H1 & H2 & H3). unfold ws_inv. simpl.
  rewrite Heq in *. word_lia.
Qed.

Lemma ws_inv_close clk w :
  ws_inv w → WS.active w = true → ws_inv (close_window clk w).
Proof.
  intros Hinv Ha. pose proof (ws_inv_active_next w Hinv Ha) as Heq.
  destruct Hinv as (H1 & H2 & H3). unfold ws_inv. simpl.
  rewrite Heq. word_lia.
Qed.

(** The effect of [__pm_stay_awake] on an allocated source. *)
Lemma stay_awake_effect clk l w s :
  mem s !! l = Some w →
  let w0 := WS.set_event_count (ulong (WS.event_count w + 1)) w in
  __pm_stay_awake clk (Some l) s
  = Some (if WS.active w
          then store l w0 s
          else store l (wakeup_source_activate clk w0 s).1
                 (set_events_in_progress (atomic_inc (events_in_progress s)) s)).
Proof.
  intros Hl. unfold __pm_stay_awake. rewrite Hl. simpl.
  by destruct (WS.active w).
Qed.

(** The effect of [__pm_relax] on an allocated source that satisfies the
    per-source invariant. *)
Lemma relax_effect clk l w s :
  mem s !! l = Some w → ws_inv w →
  __pm_relax clk (Some l) s
  = Some (if WS.active w
          then store l (close_window clk w)
                 (set_events_in_progress (atomic_dec (events_in_progress s))
                    (set_event_count (atomic_inc (event_count s)) s))
          else s).
Proof.
  intros Hl Hinv. unfold __pm_relax. rewrite Hl. simpl.
  destruct (WS.active w) eqn:Ha.
  - by rewrite deactivate_closes by by apply ws_inv_active_next.
  - by rewrite store_same.
Qed.

(** The effect of [__pm_wakeup_event] on an allocated source that satisfies
    the per-source invariant. *)
Lemma wakeup_event_effect m2j clk l msec w s :
  mem s !! l = Some w → ws_inv w →
  let w0 := WS.set_event_count (ulong (WS.event_count w + 1)) w in
  let w1 := if WS.active w then w0 else (wakeup_source_activate clk w0 s).1 in
  let s1 := if WS.active w then s
            else set_events_in_progress (atomic_inc (events_in_progress s)) s in
  let expires := ulong (jiffies clk + m2j msec) in
  let expires := if expires =? 0 then 1 else expires in
  __pm_wakeup_event m2j clk (Some l) msec s
  = Some (if msec =? 0 then
            store l (close_window (late clk) w1)
              (set_events_in_progress (atomic_dec (events_in_progress s1))
                 (set_event_count (atomic_inc (event_count s1)) s1))
          else if time_after expires (WS.timer_expires w1) then
            store l (WS.set_timer_expires expires
                       (WS.set_timer (Some expires) w1)) s1
          else store l w1 s1).
Proof.
  intros Hl Hinv. unfold __pm_wakeup_event. rewrite Hl. simpl.
  destruct (WS.active w) eqn:Ha; simpl.
  - destruct (msec =? 0).
    + rewrite deactivate_closes; [done|]. simpl. by apply ws_inv_active_next.
    + by destruct (time_after _ _).
  - destruct (msec =? 0).
    + rewrite deactivate_closes; [done|]. simpl.
      by rewrite (ws_inv_inactive_eq w Hinv Ha).
    + by destruct (time_after _ _).
Qed.

Lemma dom_store l w w' s :
  mem s !! l = Some w → dom (mem (store l w' s)) = dom (mem s).
Proof.
  intros H. rewrite mem_store, dom_insert_L.
  apply subseteq_union_1_L, singleton_subseteq_l. by eapply elem_of_dom_2.
Qed.

Lemma same_frame_refl s : same_frame s s.
Proof. by repeat split. Qed.

Lemma same_frame_trans s1 s2 s3 :
  same_frame s1 s2 → same_frame s2 s3 → same_frame s1 s3.
Proof.
  intros (A1 & A2 & A3 & A4) (B1 & B2 & B3 & B4).
  repeat split; congruence.
Qed.

Lemma same_frame_store l w w' s s' :
  mem s !! l = Some w → mem s' = mem s →
  wakeup_sources s' = wakeup_sources s →
  events_check_enabled s' = events_check_enabled s →
  saved_count s' = saved_count s →
  same_frame s (store l w' s').
Proof.
  intros Hl Hm H1 H2 H3. rewrite <- Hm in Hl.
  repeat split; try done. rewrite (dom_store l w w' s' Hl). by rewrite Hm.
Qed.

(** Every call of an event entry point on a null pointer or on an
    allocated source returns and preserves the invariant. *)
Lemma pm_step_inv m2j c s :
  pm_inv s →
  (∀ l, op_target c.2 = Some l → is_Some (mem s !! l)) →
  ∃ s', pm_step m2j c s = Some s' ∧ pm_inv s' ∧ same_frame s s'.
Proof.
  intros Hinv Hok. destruct c as [clk o]. unfold pm_step. simpl in *.
  assert (Hnull : ∃ s', Some s = Some s' ∧ pm_inv s' ∧ same_frame s s').
  { exists s. split; [done|]. split; [done|]. apply same_frame_refl. }
  destruct o as [[l|]|[l|]|[l|] msec|[l|]]; simpl in Hok; try exact Hnull;
    destruct (Hok l eq_refl) as [w Hl];
    pose proof (proj1 Hinv l w Hl) as Hw;
    pose proof (pm_inv_range s l w Hinv Hl) as [Hlo Hhi].
  - rewrite (stay_awake_effect clk l w s Hl). eexists. split; [reflexivity|].
    destruct (WS.active w) eqn:Ha;
      (split; [|by eapply same_frame_store]);
      (eapply (pm_inv_store _ _ _ _ _ Hinv Hl);
       [| done | simpl in *; rewrite ?Ha; simpl in *; word_lia]).
    + by eapply ws_inv_ext; [..|exact Hw].
    + apply ws_inv_activate; [|done]. by eapply ws_inv_ext; [..|exact Hw].
  - rewrite (relax_effect clk l w s Hl Hw). eexists. split; [reflexivity|].
    destruct (WS.active w) eqn:Ha; [|split; [done|apply same_frame_refl]].
    split; [|by eapply same_frame_store].
    eapply (pm_inv_store _ _ _ _ _ Hinv Hl); [by apply ws_inv_close|done|].
    simpl in *. rewrite Ha. simpl in *. word_lia.
  - rewrite (wakeup_event_effect m2j clk l msec w s Hl Hw).
    eexists. split; [reflexivity|].
    destruct (WS.active w) eqn:Ha; destruct (msec =? 0);
      [| destruct (time_after _ _) | | destruct (time_after _ _)];
      (split; [|by eapply same_frame_store]);
      (eapply (pm_inv_store _ _ _ _ _ Hinv Hl);
       [| done | simpl in *; rewrite ?Ha; simpl in *; word_lia]).
    + apply ws_inv_close; [|done]. by eapply ws_inv_ext; [..|exact Hw].
    + by eapply ws_inv_ext; [..|exact Hw].
    + by eapply ws_inv_ext; [..|exact Hw].
    + apply ws_inv_close; [|done].
      apply ws_inv_activate; [|done]. by eapply ws_inv_ext; [..|exact Hw].
    + eapply ws_inv_ext; [..|eapply (ws_inv_activate clk _ s)]; done.
    + apply ws_inv_activate; [|done]. by eapply ws_inv_ext; [..|exact Hw].
  - unfold pm_wakeup_timer_fn.
    rewrite (relax_effect clk l w s Hl Hw). eexists. split; [reflexivity|].
    destruct (WS.active w) eqn:Ha; [|split; [done|apply same_frame_refl]].
    split; [|by eapply same_frame_store].
    eapply (pm_inv_store _ _ _ _ _ Hinv Hl); [by apply ws_inv_close|done|].
    simpl in *. rewrite Ha. simpl in *. word_lia.
Qed.

Lemma schedule_ok_frame s s' cs :
  same_frame s s' → schedule_ok s cs → schedule_ok s' cs.
Proof.
  intros (Hd & _) Hok c l Hc Ht. apply elem_of_dom. rewrite Hd.
  apply elem_of_dom. by eapply Hok.
Qed.

(** Any schedule of calls on allocated sources runs to its end and
    preserves the invariant. *)
Lemma pm_run_inv m2j cs : ∀ s,
  pm_inv s → schedule_ok s cs →
  ∃ s', pm_run m2j cs s = Some s' ∧ pm_inv s' ∧ same_frame s s'.
Proof.
  induction cs as [|c cs IH]; intros s Hinv Hok; simpl.
  - exists s. split; [done|]. split; [done|]. apply same_frame_refl.
  - destruct (pm_step_inv m2j c s Hinv) as (s1 & Hstep & Hinv1 & Hfr1).
    { intros l Hl. eapply Hok; [left|done]. }
    rewrite Hstep. simpl.
    destruct (IH s1 Hinv1) as (s2 & Hrun & Hinv2 & Hfr2).
    { eapply schedule_ok_frame; [done|]. intros c' l Hc. eapply Hok. by right. }
    exists s2. split; [done|]. split; [done|]. by eapply same_frame_trans.
Qed.

Lemma fresh_system_inv s : fresh_system s → pm_inv s.
Proof.
  intros (Hip & Hws & Hsz). split; [|split; [|done]].
  - intros l w Hl. destruct (Hws l w Hl) as [nm ->].
    unfold ws_inv. simpl. repeat split; done.
  - unfold active_sources.
    rewrite map_empty_filter_2; [by rewrite map_size_empty|].
    intros l w Hl. destruct (Hws l w Hl) as [nm ->]. simpl. done.
Qed.

(** C3. Start from a system where no event has been reported and run any
    interleaving of [__pm_stay_awake], [__pm_relax], [__pm_wakeup_event]
    and timer expiries on its sources.  Every prefix of the schedule runs
    to its end, and in the state it reaches every source has
    [active_count - relax_count] (in [unsigned long] arithmetic, as C
    computes it) equal to 0 or 1, namely 1 exactly while the source is
    active; as integers the two counters differ by that much too, except
    when [active_count] has just wrapped to 0.  [events_in_progress] is the
    number of active sources, hence not negative. *)
Theorem counters_invariant (m2j : Z → Z) (s0 : pm)
    (cs : list (clock * pm_op)) (n : nat) :
  fresh_system s0 →
  schedule_ok s0 cs →
  ∃ s, pm_run m2j (take n cs) s0 = Some s
       ∧ (∀ l w, mem s !! l = Some w →
            (ulong (WS.active_count w - WS.relax_count w) = 0
             ∨ ulong (WS.active_count w - WS.relax_count w) = 1)
            ∧ ulong (WS.active_count w - WS.relax_count w)
              = b2z (WS.active w)
            ∧ (WS.active_count w - WS.relax_count w = b2z (WS.active w)
               ∨ (WS.active_count w = 0
                  ∧ WS.relax_count w = ULONG_MOD - 1)))
       ∧ 0 ≤ events_in_progress s
       ∧ events_in_progress s = Z.of_nat (size (active_sources s)).
Proof.
  intros Hfresh Hok.
  destruct (pm_run_inv m2j (take n cs) s0 (fresh_system_inv s0 Hfresh))
    as (s & Hrun & (Hws & Hip & Hsz) & _).
  { intros c l Hc. apply Hok. by eapply subseteq_take. }
  exists s. split; [done|]. split; [|split; [lia|done]].
  intros l w Hl. destruct (Hws l w Hl) as (Ha & Hr & Hd). rewrite Hd.
  split; [destruct (WS.active w); auto|]. split; [done|].
  destruct (WS.active w); word_lia.
Qed.

(** C4. Create a source, call [__pm_stay_awake] on it at clock [clk1] and
    then [__pm_relax] at clock [clk2].  After the first call the source is
    active with [active_count = 1] and [events_in_progress] has gone up by
    one.  After the second it is inactive, the window [now - last_time] has
    been added to [total_time] and replaces [max_time] if it is longer,
    the global [event_count] has been incremented once, and
    [events_in_progress] is back at its initial value (from 0: 1, then 0
    again). *)
Theorem stay_awake_relax_scenario (nm : option string) (l : loc) (k : bool)
    (clk1 clk2 : clock) (s0 : pm) :
  - 2 ^ 31 ≤ events_in_progress s0 < 2 ^ 31 - 1 →
  let s := (wakeup_source_create nm (Some l) k s0).2 in
  ∃ s1 w1 s2 w2,
    __pm_stay_awake clk1 (Some l) s = Some s1
    ∧ mem s1 !! l = Some w1
    ∧ WS.active w1 = true
    ∧ WS.active_count w1 = 1
    ∧ WS.last_time w1 = ktime_get clk1
    ∧ events_in_progress s1 = events_in_progress s0 + 1
    ∧ event_count s1 = event_count s0
    ∧ __pm_relax clk2 (Some l) s1 = Some s2
    ∧ mem s2 !! l = Some w2
    ∧ WS.active w2 = false
    ∧ WS.total_time w2
      = WS.total_time w1 + (ktime_get clk2 - WS.last_time w1)
    ∧ WS.max_time w2
      = (if ktime_get clk2 - WS.last_time w1 >? WS.max_time w1
         then ktime_get clk2 - WS.last_time w1 else WS.max_time w1)
    ∧ event_count s2 = atomic_inc (event_count s0)
    ∧ events_in_progress s2 = events_in_progress s0.
Proof.
  intros Hip s.
  set (w := match nm with
            | Some n => WS.set_name (kstrdup k n) kzalloc_ws
            | None => kzalloc_ws
            end).
  assert (Hs : s = store l w s0) by done.
  assert (Hw : WS.active w = false ∧ WS.active_count w = 0
               ∧ WS.relax_count w = 0).
  { unfold w. by destruct nm. }
  destruct Hw as (Ha & Hac & Hrc).
  assert (Hl : mem s !! l = Some w) by (rewrite Hs; apply lookup_store_eq).
  rewrite (stay_awake_effect clk1 l w s Hl), Ha.
  set (w1 := (wakeup_source_activate clk1
                (WS.set_event_count (ulong (WS.event_count w + 1)) w) s).1).
  set (s1 := store l w1
               (set_events_in_progress (atomic_inc (events_in_progress s)) s)).
  assert (Hl1 : mem s1 !! l = Some w1) by apply lookup_store_eq.
  set (s2 := store l (close_window clk2 w1)
               (set_events_in_progress (atomic_dec (events_in_progress s1))
                  (set_event_count (atomic_inc (event_count s1)) s1))).
  assert (Hr : __pm_relax clk2 (Some l) s1 = Some s2).
  { unfold __pm_relax. rewrite Hl1. simpl.
    by rewrite deactivate_closes by (simpl; by rewrite Hrc, Hac). }
  exists s1, w1, s2, (close_window clk2 w1).
  split; [done|]. split; [done|]. split; [done|].
  split; [simpl; by rewrite Hac|]. split; [done|].
  split; [unfold s1, s; simpl; word_lia|]. split; [done|].
  split; [exact Hr|]. split; [apply lookup_store_eq|].
  split; [done|]. split; [done|]. split; [done|].
  split; [done|]. unfold s2, s1, s. simpl. word_lia.
Qed.

(* ================================================================== *)
(** * The deadline of the deactivation timer *)
(* ================================================================== *)

(** [time_after a b] holds when [a] is between 1 and half the counter range
    ahead of [b], counting modulo the word size. *)
Lemma time_after_spec a b :
  time_after a b = true ↔ 1 ≤ ulong (a - b) ≤ ULONG_MOD / 2.
Proof. unfold time_after. rewrite Z.ltb_lt. word_lia. Qed.

(** On tick values less than half the range apart, [time_after a b] is
    [b < a]. *)
Lemma time_after_window a b :
  0 ≤ a < ULONG_MOD → 0 ≤ b < ULONG_MOD →
  - (ULONG_MOD / 2) < a - b < ULONG_MOD / 2 →
  time_after a b = (b <? a).
Proof.
  intros Ha Hb Hd. apply eq_true_iff_eq.
  rewrite time_after_spec, Z.ltb_lt. word_lia.
Qed.

Lemma time_after_false a b :
  time_after a b = false ↔ ¬ (1 ≤ ulong (a - b) ≤ ULONG_MOD / 2).
Proof. rewrite <- time_after_spec. by destruct (time_after a b). Qed.

(** A deadline less than half the range after the tick [ja] is later than
    [ja]; [ulong (jiffies clk - ja)] is the number of ticks since [ja]. *)
Lemma deadline_after_start m2j ja clk msec :
  0 < m2j msec →
  ulong (jiffies clk - ja) + m2j msec < ULONG_MOD / 2 →
  time_after (timer_deadline m2j clk msec) ja = true.
Proof.
  intros Ht Hlt. apply time_after_spec. unfold timer_deadline.
  destruct (ulong (jiffies clk + m2j msec) =? 0) eqn:Hz;
    [apply Z.eqb_eq in Hz | apply Z.eqb_neq in Hz]; word_lia.
Qed.

(** A deadline that falls at or before a pending one is not later. *)
Lemma deadline_not_after m2j j0 d k0 k0' k1 k1' ma mb :
  0 ≤ d → 0 < m2j mb → d + m2j mb ≤ m2j ma → m2j ma < ULONG_MOD / 2 →
  time_after (timer_deadline m2j (Clock (ulong (j0 + d)) k1 k1') mb)
             (timer_deadline m2j (Clock j0 k0 k0') ma) = false.
Proof.
  intros Hd Hb Hle Ha. apply time_after_false. unfold timer_deadline. simpl.
  destruct (ulong (ulong (j0 + d) + m2j mb) =? 0) eqn:Hz;
    [apply Z.eqb_eq in Hz | apply Z.eqb_neq in Hz];
    destruct (ulong (j0 + m2j ma) =? 0) eqn:Hz';
    [apply Z.eqb_eq in Hz' | apply Z.eqb_neq in Hz'
    |apply Z.eqb_eq in Hz' | apply Z.eqb_neq in Hz']; word_lia.
Qed.

(** A deadline that falls at or after a pending one is later, or is the
    same tick. *)
Lemma deadline_extends m2j j0 d k0 k0' k1 k1' ma mc :
  0 ≤ d → 0 < m2j ma → m2j ma ≤ d + m2j mc → d + m2j mc < ULONG_MOD / 2 →
  time_after (timer_deadline m2j (Clock (ulong (j0 + d)) k1 k1') mc)
             (timer_deadline m2j (Clock j0 k0 k0') ma) = true
  ∨ timer_deadline m2j (Clock (ulong (j0 + d)) k1 k1') mc
    = timer_deadline m2j (Clock j0 k0 k0') ma.
Proof.
  intros Hd Ha Hle Hlt. rewrite time_after_spec. unfold timer_deadline. simpl.
  destruct (ulong (ulong (j0 + d) + m2j mc) =? 0) eqn:Hz;
    [apply Z.eqb_eq in Hz | apply Z.eqb_neq in Hz];
    destruct (ulong (j0 + m2j ma) =? 0) eqn:Hz';
    [apply Z.eqb_eq in Hz' | apply Z.eqb_neq in Hz'
    |apply Z.eqb_eq in Hz' | apply Z.eqb_neq in Hz']; word_lia.
Qed.

(** The effect of [__pm_wakeup_event] with a nonzero timeout on an
    allocated source. *)
Lemma wakeup_event_schedule m2j clk l msec w s :
  mem s !! l = Some w → msec ≠ 0 →
  let w0 := WS.set_event_count (ulong (WS.event_count w + 1)) w in
  let w1 := if WS.active w then w0 else (wakeup_source_activate clk w0 s).1 in
  let s1 := if WS.active w then s
            else set_events_in_progress (atomic_inc (events_in_progress s)) s in
  let e := timer_deadline m2j clk msec in
  __pm_wakeup_event m2j clk (Some l) msec s
  = Some (store l (if time_after e (WS.timer_expires w1)
                   then WS.set_timer_expires e (WS.set_timer (Some e) w1)
                   else w1) s1).
Proof.
  intros Hl Hm. unfold __pm_wakeup_event, timer_deadline. rewrite Hl. simpl.
  apply Z.eqb_neq in Hm. rewrite Hm.
  destruct (WS.active w); simpl; by destruct (time_after _ _).
Qed.

(** A schedule on an idle source takes effect. *)
Lemma schedule_on_idle m2j clk l msec w s :
  mem s !! l = Some w → WS.active w = false → msec ≠ 0 →
  0 < m2j msec < ULONG_MOD / 2 →
  ∃ s', __pm_wakeup_event m2j clk (Some l) msec s = Some s'
        ∧ deadline_in_effect s' l (timer_deadline m2j clk msec).
Proof.
  intros Hl Ha Hm Ht. rewrite (wakeup_event_schedule m2j clk l msec w s Hl Hm).
  rewrite Ha. simpl. rewrite deadline_after_start by word_lia.
  eexists. split; [reflexivity|]. eexists. rewrite lookup_store_eq.
  by split; [reflexivity|].
Qed.

(** A schedule on a source activated by [__pm_stay_awake] and not scheduled
    since takes effect when its deadline is less than half the counter
    range after the activation. *)
Lemma schedule_after_stay_awake m2j clk l msec w s :
  mem s !! l = Some w → WS.active w = true → msec ≠ 0 →
  0 < m2j msec →
  ulong (jiffies clk - WS.timer_expires w) + m2j msec < ULONG_MOD / 2 →
  ∃ s', __pm_wakeup_event m2j clk (Some l) msec s = Some s'
        ∧ deadline_in_effect s' l (timer_deadline m2j clk msec).
Proof.
  intros Hl Ha Hm Ht Hlt.
  rewrite (wakeup_event_schedule m2j clk l msec w s Hl Hm).
  rewrite Ha. simpl. rewrite deadline_after_start by done.
  eexists. split; [reflexivity|]. eexists. rewrite lookup_store_eq.
  by split; [reflexivity|].
Qed.

(** A schedule whose deadline is not later than the one in effect leaves
    it in effect. *)
Lemma schedule_not_later m2j clk l msec e s :
  deadline_in_effect s l e → msec ≠ 0 →
  time_after (timer_deadline m2j clk msec) e = false →
  ∃ s', __pm_wakeup_event m2j clk (Some l) msec s = Some s'
        ∧ deadline_in_effect s' l e.
Proof.
  intros (w & Hl & Ha & He & Ht) Hm Hna.
  rewrite (wakeup_event_schedule m2j clk l msec w s Hl Hm).
  rewrite Ha. simpl. rewrite He, Hna.
  eexists. split; [reflexivity|]. eexists. rewrite lookup_store_eq.
  by split; [reflexivity|].
Qed.

(** A schedule whose deadline is later than the one in effect replaces
    it. *)
Lemma schedule_later m2j clk l msec e s :
  deadline_in_effect s l e → msec ≠ 0 →
  time_after (timer_deadline m2j clk msec) e = true →
  ∃ s', __pm_wakeup_event m2j clk (Some l) msec s = Some s'
        ∧ deadline_in_effect s' l (timer_deadline m2j clk msec).
Proof.
  intros (w & Hl & Ha & He & Ht) Hm Hna.
  rewrite (wakeup_event_schedule m2j clk l msec w s Hl Hm).
  rewrite Ha. simpl. rewrite He, Hna.
  eexists. split; [reflexivity|]. eexists. rewrite lookup_store_eq.
  by split; [reflexivity|].
Qed.

(** On an active source [__pm_wakeup_event] keeps [timer_expires] or moves
    it to a later tick. *)
Lemma timer_expires_monotone m2j clk l msec w s :
  mem s !! l = Some w → WS.active w = true →
  ∃ s' w', __pm_wakeup_event m2j clk (Some l) msec s = Some s'
           ∧ mem s' !! l = Some w'
           ∧ (WS.timer_expires w' = WS.timer_expires w
              ∨ time_after (WS.timer_expires w') (WS.timer_expires w) = true).
Proof.
  intros Hl Ha. destruct (decide (msec = 0)) as [->|Hm].
  - unfold __pm_wakeup_event. rewrite Hl. simpl. rewrite Ha. simpl.
    destruct (wakeup_source_deactivate _ _ _) as [w' s'] eqn:Hd.
    eexists _, _. split; [reflexivity|]. rewrite lookup_store_eq.
    split; [reflexivity|]. left. revert Hd. unfold wakeup_source_deactivate.
    simpl. destruct (negb _); [by intros [= <- _]|].
    intros [= <- _]. by destruct (_ >? _).
  - rewrite (wakeup_event_schedule m2j clk l msec w s Hl Hm). rewrite Ha.
    eexists _, _. split; [reflexivity|]. rewrite lookup_store_eq.
    split; [reflexivity|]. simpl.
    destruct (time_after _ _) eqn:Hta; simpl; auto.
Qed.

(** C6 (amended). On an active source [__pm_wakeup_event] never moves
    [timer_expires] to an earlier tick: it keeps it or sets a later one.
    After a schedule with timeout [ma] on an idle source, a schedule with
    timeout [mb] issued [d1] ticks later leaves the first deadline in
    effect when its own deadline is not later ([d1 + m2j mb ≤ m2j ma]), and
    a schedule with timeout [mc] issued [d2] ticks after the first call,
    whose deadline is not earlier ([m2j ma ≤ d2 + m2j mc]), makes its own
    deadline the one in effect.  The first schedule after an activation
    takes effect when the call itself activates the source, and after an
    activation by [__pm_stay_awake] when its deadline is less than half the
    counter range after the activation. *)
Theorem timer_deadline_extension (m2j : Z → Z) :
  (∀ clk l msec w s,
     mem s !! l = Some w → WS.active w = true →
     ∃ s' w', __pm_wakeup_event m2j clk (Some l) msec s = Some s'
              ∧ mem s' !! l = Some w'
              ∧ (WS.timer_expires w' = WS.timer_expires w
                 ∨ time_after (WS.timer_expires w') (WS.timer_expires w)
                   = true))
  ∧ (∀ l w s j0 k0 k0' k1 k1' k2 k2' d1 d2 ma mb mc,
       mem s !! l = Some w → WS.active w = false →
       ma ≠ 0 → mb ≠ 0 → mc ≠ 0 →
       0 < m2j mb → 0 < m2j ma →
       0 ≤ d1 → d1 + m2j mb ≤ m2j ma →
       0 ≤ d2 → m2j ma ≤ d2 + m2j mc → d2 + m2j mc < ULONG_MOD / 2 →
       let c0 := Clock j0 k0 k0' in
       let c1 := Clock (ulong (j0 + d1)) k1 k1' in
       let c2 := Clock (ulong (j0 + d2)) k2 k2' in
       ∃ s1 s2 s3,
         __pm_wakeup_event m2j c0 (Some l) ma s = Some s1
         ∧ deadline_in_effect s1 l (timer_deadline m2j c0 ma)
         ∧ __pm_wakeup_event m2j c1 (Some l) mb s1 = Some s2
         ∧ deadline_in_effect s2 l (timer_deadline m2j c0 ma)
         ∧ __pm_wakeup_event m2j c2 (Some l) mc s2 = Some s3
         ∧ deadline_in_effect s3 l (timer_deadline m2j c2 mc))
  ∧ (∀ clk l msec w s,
       mem s !! l = Some w → WS.active w = false → msec ≠ 0 →
       0 < m2j msec < ULONG_MOD / 2 →
       ∃ s', __pm_wakeup_event m2j clk (Some l) msec s = Some s'
             ∧ deadline_in_effect s' l (timer_deadline m2j clk msec))
  ∧ (∀ ca clk l msec w s,
       mem s !! l = Some w → WS.active w = false → msec ≠ 0 →
       0 < m2j msec →
       ulong (jiffies clk - jiffies ca) + m2j msec < ULONG_MOD / 2 →
       ∃ s1 s2,
         __pm_stay_awake ca (Some l) s = Some s1
         ∧ __pm_wakeup_event m2j clk (Some l) msec s1 = Some s2
         ∧ deadline_in_effect s2 l (timer_deadline m2j clk msec)).
Proof.
  split; [|split; [|split]].
  - intros. by apply timer_expires_monotone.
  - intros l w s j0 k0 k0' k1 k1' k2 k2' d1 d2 ma mb mc Hl Ha Hma Hmb Hmc Hb Ha0
      Hd1 Hle1 Hd2 Hle2 Hlt c0 c1 c2.
    destruct (schedule_on_idle m2j c0 l ma w s Hl Ha Hma) as (s1 & E1 & D1).
    { word_lia. }
    destruct (schedule_not_later m2j c1 l mb _ s1 D1 Hmb) as (s2 & E2 & D2).
    { apply deadline_not_after; try done. word_lia. }
    destruct (deadline_extends m2j j0 d2 k0 k0' k2 k2' ma mc Hd2 Ha0 Hle2 Hlt)
      as [Hta|Heq].
    + destruct (schedule_later m2j c2 l mc _ s2 D2 Hmc Hta) as (s3 & E3 & D3).
      by exists s1, s2, s3.
    + destruct (schedule_not_later m2j c2 l mc _ s2 D2 Hmc) as (s3 & E3 & D3).
      { fold c0 c2 in Heq. rewrite Heq. apply time_after_false.
        rewrite Z.sub_diag. word_lia. }
      exists s1, s2, s3. fold c0 c2 in Heq. rewrite Heq. done.
  - intros. by eapply schedule_on_idle.
  - intros ca clk l msec w s Hl Ha Hm Ht Hlt.
    rewrite (stay_awake_effect ca l w s Hl), Ha.
    set (w1 := (wakeup_source_activate ca _ s).1).
    set (s1 := store l w1 _).
    destruct (schedule_after_stay_awake m2j clk l msec w1 s1)
      as (s2 & E2 & D2); [apply lookup_store_eq|done..|].
    by exists s1, s2.
Qed.

(** C6 as stated fails.  With 100 ticks per second, [notify_event(ws, 100)]
    at tick 1000 sets the deadline 1010; [notify_event(ws, 50)] at tick
    1006, before that deadline has passed, moves it to 1011.  And a first
    schedule that comes [2^31] ticks after an activation by
    [__pm_stay_awake] does not take effect: no timer is armed. *)
Lemma short_timeout_moves_deadline :
  let m2j := msecs_to_jiffies_hz 100 in
  let s := (wakeup_source_create None (Some 1%positive) true pm_init).2 in
  (∃ s1 s2,
     __pm_wakeup_event m2j (Clock 1000 0 0) (Some 1%positive) 100 s = Some s1
     ∧ deadline_in_effect s1 1%positive 1010
     ∧ time_after 1010 1006 = true
     ∧ __pm_wakeup_event m2j (Clock 1006 60000000 60000000)
         (Some 1%positive) 50 s1 = Some s2
     ∧ deadline_in_effect s2 1%positive 1011
     ∧ ¬ deadline_in_effect s2 1%positive 1010)
  ∧ (∃ s1 s2 w2,
       __pm_stay_awake (Clock 0 0 0) (Some 1%positive) s = Some s1
       ∧ __pm_wakeup_event m2j (Clock (2 ^ 31) 0 0) (Some 1%positive) 100 s1
         = Some s2
       ∧ mem s2 !! 1%positive = Some w2
       ∧ WS.active w2 = true
       ∧ WS.timer w2 = None
       ∧ ¬ deadline_in_effect s2 1%positive
             (timer_deadline m2j (Clock (2 ^ 31) 0 0) 100)).
Proof.
  split.
  - eexists _, _. split; [vm_compute; reflexivity|].
    split; [eexists; by vm_compute|]. split; [by vm_compute|].
    split; [vm_compute; reflexivity|].
    split; [eexists; by vm_compute|].
    intros (w & Hl & _ & He & _). vm_compute in Hl. injection Hl as <-.
    by vm_compute in He.
  - eexists _, _, _. split; [vm_compute; reflexivity|].
    split; [vm_compute; reflexivity|].
    split; [vm_compute; reflexivity|]. split; [done|]. split; [done|].
    intros (w & Hl & _ & _ & Ht). vm_compute in Hl. injection Hl as <-.
    by vm_compute in Ht.
Qed.

(** The amended statement at work, with 100 ticks per second:
    [notify_event(ws, 100)], then [notify_event(ws, 50)] two ticks later,
    then [notify_event(ws, 200)] four ticks after the first call. *)
Lemma timer_deadline_extension_witness :
  let m2j := msecs_to_jiffies_hz 100 in
  let s := (wakeup_source_create None (Some 1%positive) true pm_init).2 in
  ∃ s1 s2 s3,
    __pm_wakeup_event m2j (Clock 1000 0 0) (Some 1%positive) 100 s = Some s1
    ∧ deadline_in_effect s1 1%positive 1010
    ∧ __pm_wakeup_event m2j (Clock 1002 20000000 20000000)
        (Some 1%positive) 50 s1 = Some s2
    ∧ deadline_in_effect s2 1%positive 1010
    ∧ __pm_wakeup_event m2j (Clock 1004 40000000 40000000)
        (Some 1%positive) 200 s2 = Some s3
    ∧ deadline_in_effect s3 1%positive 1024.
Proof.
  exact (proj1 (proj2 (timer_deadline_extension (msecs_to_jiffies_hz 100)))
           1%positive kzalloc_ws
           (wakeup_source_create None (Some 1%positive) true pm_init).2
           1000 0 0 20000000 20000000 40000000 40000000 2 4 100 50 200
           eq_refl eq_refl
           ltac:(done) ltac:(done) ltac:(done)
           ltac:(by vm_compute) ltac:(by vm_compute)
           ltac:(done) ltac:(by vm_compute)
           ltac:(done) ltac:(by vm_compute) ltac:(by vm_compute)).
Defined.

(* ================================================================== *)
(** * Reading the event count *)
(* ================================================================== *)

Lemma deactivate_frame clk w s :
  let s' := (wakeup_source_deactivate clk w s).2 in
  mem s' = mem s ∧ wakeup_sources s' = wakeup_sources s
  ∧ events_check_enabled s' = events_check_enabled s
  ∧ saved_count s' = saved_count s.
Proof.
  unfold wakeup_source_deactivate. simpl. by destruct (negb _).
Qed.

Lemma same_frame_store' l w w' s s' :
  mem s !! l = Some w →
  (mem s' = mem s ∧ wakeup_sources s' = wakeup_sources s
   ∧ events_check_enabled s' = events_check_enabled s
   ∧ saved_count s' = saved_count s) →
  same_frame s (store l w' s').
Proof. intros Hl (H1 & H2 & H3 & H4). by eapply same_frame_store. Qed.

(** A call of an event entry point that returns leaves the registry, the
    set of allocated objects, [events_check_enabled] and [saved_count]
    alone. *)
Lemma pm_step_frame m2j c s s' :
  pm_step m2j c s = Some s' → same_frame s s'.
Proof.
  destruct c as [clk o]. unfold pm_step. simpl.
  assert (Hrelax : ∀ p, __pm_relax clk p s = Some s' → same_frame s s').
  { intros [l|]; simpl; [|intros [= <-]; apply same_frame_refl].
    destruct (mem s !! l) as [w|] eqn:Hl; simpl; [|done].
    destruct (WS.active w).
    - pose proof (deactivate_frame clk w s) as Hf.
      destruct (wakeup_source_deactivate clk w s) as [w' s1].
      intros [= <-]. by eapply same_frame_store'.
    - intros [= <-]. by eapply same_frame_store. }
  destruct o as [[l|]|p|[l|] msec|p]; simpl; try apply Hrelax;
    try (intros [= <-]; apply same_frame_refl).
  - destruct (mem s !! l) as [w|] eqn:Hl; simpl; [|done].
    destruct (WS.active w); simpl; intros [= <-]; by eapply same_frame_store.
  - destruct (mem s !! l) as [w|] eqn:Hl; simpl; [|done].
    destruct (WS.active w); simpl; destruct (msec =? 0).
    + match goal with
      | |- context [wakeup_source_deactivate ?c ?a ?b] =>
          pose proof (deactivate_frame c a b) as Hf;
          destruct (wakeup_source_deactivate c a b) as [w' s1]
      end.
      intros [= <-]. by eapply same_frame_store'.
    + destruct (time_after _ _); intros [= <-]; by eapply same_frame_store.
    + match goal with
      | |- context [wakeup_source_deactivate ?c ?a ?b] =>
          pose proof (deactivate_frame c a b) as Hf;
          destruct (wakeup_source_deactivate c a b) as [w' s1]
      end.
      intros [= <-]. by eapply same_frame_store'.
    + destruct (time_after _ _); intros [= <-]; by eapply same_frame_store.
Qed.


Lemma pm_run_frame m2j cs : ∀ s s',
  pm_run m2j cs s = Some s' → same_frame s s'.
Proof.
  induction cs as [|c cs IH]; intros s s'; simpl.
  - intros [= <-]. apply same_frame_refl.
  - destruct (pm_step m2j c s) as [s1|] eqn:Hs; simpl; [|done].
    intros Hr. eapply same_frame_trans; [by eapply pm_step_frame|by apply IH].
Qed.



Lemma update_hit_counts_frame s :
  registry_ok s →
  ∃ s', pm_wakeup_update_hit_counts s = Some s' ∧ same_frame s s'
        ∧ event_count s' = event_count s
        ∧ events_in_progress s' = events_in_progress s.
Proof.
  intros Hreg.
  destruct (pm_wakeup_update_hit_counts_spec s Hreg)
    as (s' & Hrun & H1 & H2 & H3 & H4 & H5 & H6 & H7).
  exists s'. by repeat split.
Qed.










(* ================================================================== *)
(** * Program order on the deactivation path *)
(* ================================================================== *)

(** At every point of the sequence of accesses that ends
    [wakeup_source_deactivate], either [events_in_progress] still has its
    old value or [event_count] has already been incremented.  (What other
    processors observe, and the role of the barrier, are outside this
    sequential model.) *)
Lemma event_count_incremented_first (s : pm) (n : nat) :
  let s' := foldl atomic_step s (take n deactivate_atomics) in
  events_in_progress s' = events_in_progress s
  ∨ event_count s' = atomic_inc (event_count s).
Proof. destruct n as [|[|[|[|n]]]]; simpl; auto. Qed.

(* ================================================================== *)
(** * Worked examples *)
(* ================================================================== *)

Lemma example_registry_ok : registry_ok example_system.
Proof.
  intros l Hl. vm_compute in Hl. apply list_elem_of_singleton in Hl as ->.
  by eexists.
Qed.

Lemma example_mem :
  mem example_system = {[ 1%positive := WS.set_name (Some "rtc") kzalloc_ws ]}.
Proof. by vm_compute. Qed.

Lemma example_fresh : fresh_system example_system.
Proof.
  split; [done|]. split.
  - intros l w. rewrite example_mem. intros [_ <-]%lookup_singleton_Some. eauto.
  - by rewrite example_mem, map_size_singleton.
Qed.

Lemma example_schedule_ok : schedule_ok example_system example_schedule.
Proof.
  intros c l Hc Ht. assert (l = 1%positive) as ->.
  { unfold example_schedule in Hc.
    repeat (apply elem_of_cons in Hc as [->|Hc]; [simpl in Ht; congruence|]).
    by apply elem_of_nil in Hc. }
  by eexists.
Qed.

(** The schedule runs to its end: three windows were opened and closed
    (30, 50 and, for the immediate event, 7 long), none is open, and the
    longest lasted 50. *)
Example example_schedule_runs :
  (λ s, (events_in_progress s, event_count s,
         (λ w, (WS.active w, WS.active_count w, WS.relax_count w,
                WS.event_count w, WS.total_time w, WS.max_time w))
           <$> mem s !! 1%positive))
    <$> pm_run (msecs_to_jiffies_hz 100) example_schedule example_system
  = Some (0, 3, Some (false, 3, 3, 3, 87, 50)).
Proof. by vm_compute. Qed.

(** While the window is open the count cannot be saved, and the failed
    attempt is charged to the source. *)
Example example_save_while_busy :
  (λ r, (r.1, events_check_enabled r.2, saved_count r.2,
         WS.hit_count <$> mem r.2 !! 1%positive))
    <$> pm_save_wakeup_count 0 example_busy
  = Some (false, false, 0, Some 1).
Proof. by vm_compute. Qed.

(** Interrupted while the window is still open: the result is false, the
    count is written all the same, and two sleeps were charged to the
    source.  Two iterations are not enough to get there. *)
Example example_interrupted_wait :
  (λ r, (r.1, events_in_progress r.2, WS.hit_count <$> mem r.2 !! 1%positive))
    <$> pm_get_wakeup_count (msecs_to_jiffies_hz 100) example_alone 3
          example_busy
  = Some (false, 0, 1, Some 2)
  ∧ pm_get_wakeup_count (msecs_to_jiffies_hz 100) example_alone 2 example_busy
    = None.
Proof. by vm_compute. Qed.

(** The other contexts close the window during the first sleep: the
    result is true and the count read can be saved, which arms the check. *)
Example example_wait_then_save :
  (λ r, (r.1, (λ r', (r'.1, events_check_enabled r'.2, saved_count r'.2))
                <$> pm_save_wakeup_count r.1.2 r.2))
    <$> pm_get_wakeup_count (msecs_to_jiffies_hz 100) example_env 2
          example_busy
  = Some (true, 3, Some (true, true, 3)).
Proof. by vm_compute. Qed.

(** C7 on the example system: its source is idle. *)
Lemma relax_inactive_noop_witness :
  mem example_system !! 1%positive = Some (WS.set_name (Some "rtc") kzalloc_ws)
  ∧ __pm_relax (Clock 5 50 50) (Some 1%positive) example_system
    = Some example_system.
Proof.
  split; [reflexivity|].
  apply (relax_inactive_noop (Clock 5 50 50) 1%positive
           (WS.set_name (Some "rtc") kzalloc_ws)); reflexivity.
Defined.

(** C1 on the example system, saving the count 0. *)
Lemma pm_save_wakeup_count_spec_witness :
  ∃ ret s',
    pm_save_wakeup_count 0 example_system = Some (ret, s')
    ∧ (ret = true ↔ 0 = uint (event_count example_system)
                    ∧ events_in_progress example_system = 0)
    ∧ (ret = true →
         saved_count s' = 0
         ∧ events_check_enabled s' = true
         ∧ s' = set_events_check_enabled true
                  (set_saved_count 0 example_system))
    ∧ (ret = false →
         saved_count s' = saved_count example_system
         ∧ events_check_enabled s' = events_check_enabled example_system
         ∧ pm_wakeup_update_hit_counts example_system = Some s').
Proof.
  exact (pm_save_wakeup_count_spec 0 example_system example_registry_ok).
Defined.

(** C2 on the example system. *)
Lemma pm_check_wakeup_events_spec_witness :
  ∃ ret s',
    pm_check_wakeup_events example_system = Some (ret, s')
    ∧ (events_check_enabled example_system = true →
         ret = ((uint (event_count example_system)
                 =? saved_count example_system)
                && (events_in_progress example_system =? 0))
         ∧ events_check_enabled s' = ret)
    ∧ (events_check_enabled example_system = false →
         ret = true ∧ s' = example_system)
    ∧ (ret = true → s' = example_system)
    ∧ (ret = false →
         pm_wakeup_update_hit_counts
           (set_events_check_enabled false example_system) = Some s').
Proof.
  exact (pm_check_wakeup_events_spec example_system example_registry_ok).
Defined.

(** C3 on the example system, after the first three calls of the example
    schedule. *)
Lemma counters_invariant_witness :
  ∃ s, pm_run (msecs_to_jiffies_hz 100) (take 3 example_schedule)
         example_system = Some s
       ∧ (∀ l w, mem s !! l = Some w →
            (ulong (WS.active_count w - WS.relax_count w) = 0
             ∨ ulong (WS.active_count w - WS.relax_count w) = 1)
            ∧ ulong (WS.active_count w - WS.relax_count w)
              = b2z (WS.active w)
            ∧ (WS.active_count w - WS.relax_count w = b2z (WS.active w)
               ∨ (WS.active_count w = 0
                  ∧ WS.relax_count w = ULONG_MOD - 1)))
       ∧ 0 ≤ events_in_progress s
       ∧ events_in_progress s = Z.of_nat (size (active_sources s)).
Proof.
  exact (counters_invariant (msecs_to_jiffies_hz 100) example_system
           example_schedule 3 example_fresh example_schedule_ok).
Defined.

(** C4 from the state at boot: a window from time 1000 to time 1030. *)
Lemma stay_awake_relax_scenario_witness :
  let s :=
    (wakeup_source_create (Some "rtc") (Some 1%positive) true pm_init).2 in
  let clk1 := Clock 100 1000 1000 in
  let clk2 := Clock 103 1030 1030 in
  ∃ s1 w1 s2 w2,
    __pm_stay_awake clk1 (Some 1%positive) s = Some s1
    ∧ mem s1 !! 1%positive = Some w1
    ∧ WS.active w1 = true
    ∧ WS.active_count w1 = 1
    ∧ WS.last_time w1 = 1000
    ∧ events_in_progress s1 = 1
    ∧ event_count s1 = 0
    ∧ __pm_relax clk2 (Some 1%positive) s1 = Some s2
    ∧ mem s2 !! 1%positive = Some w2
    ∧ WS.active w2 = false
    ∧ WS.total_time w2 = WS.total_time w1 + (1030 - WS.last_time w1)
    ∧ WS.max_time w2
      = (if 1030 - WS.last_time w1 >? WS.max_time w1
         then 1030 - WS.last_time w1 else WS.max_time w1)
    ∧ event_count s2 = 1
    ∧ events_in_progress s2 = 0.
Proof.
  exact (stay_awake_relax_scenario (Some "rtc") 1%positive true
           (Clock 100 1000 1000) (Clock 103 1030 1030) pm_init
           ltac:(by vm_compute)).
Defined.

(** C5 on the example system: an immediate event on its idle source. *)
Lemma wakeup_event_zero_refines_witness :
  let w := WS.set_name (Some "rtc") kzalloc_ws in
  let clk := Clock 120 1200 1207 in
  ws_inv w
  ∧ ∃ s' w',
      __pm_wakeup_event (msecs_to_jiffies_hz 100) clk (Some 1%positive) 0
        example_system = Some s'
      ∧ mem s' !! 1%positive = Some w'
      ∧ WS.active w' = false
      ∧ WS.total_time w' = 0 + (1207 - 1200)
      ∧ event_count s' = 1.
Proof.
  assert (H : ws_inv (WS.set_name (Some "rtc") kzalloc_ws))
    by (by vm_compute).
  split; [exact H|].
  exact (proj2 (wakeup_event_zero_refines (msecs_to_jiffies_hz 100)
                  (Clock 120 1200 1207) (Some 1%positive) example_system)
           1%positive (WS.set_name (Some "rtc") kzalloc_ws)
           eq_refl eq_refl H).
Defined.






(* ================================================================== *)
(** * Transitions of one source *)
(* ================================================================== *)

Lemma pm_step_null m2j c s :
  op_target c.2 = None → pm_step m2j c s = Some s.
Proof. destruct c as [clk [p|p|p msec|p]]; simpl; by intros ->. Qed.

(** A call on an allocated source that satisfies [ws_inv] returns, and
    writes [ws_after] at its address and nothing else to the memory. *)
Lemma pm_step_source m2j c l w s :
  mem s !! l = Some w → ws_inv w → op_target c.2 = Some l →
  ∃ s', pm_step m2j c s = Some s'
        ∧ mem s' = <[l := ws_after m2j c w]> (mem s).
Proof.
  intros Hl Hw Ht. destruct c as [clk o]. unfold pm_step, ws_after.
  destruct o as [p|p|p msec|p]; simpl in *; subst p.
  - rewrite (stay_awake_effect clk l w s Hl). eexists. split; [reflexivity|].
    by destruct (WS.active w).
  - rewrite (relax_effect clk l w s Hl Hw). eexists. split; [reflexivity|].
    destruct (WS.active w); [done|]. by rewrite insert_id.
  - rewrite (wakeup_event_effect m2j clk l msec w s Hl Hw).
    eexists. split; [reflexivity|].
    destruct (WS.active w); destruct (msec =? 0); try done;
      by destruct (time_after _ _).
  - unfold pm_wakeup_timer_fn.
    rewrite (relax_effect clk l w s Hl Hw). eexists. split; [reflexivity|].
    destruct (WS.active w); [done|]. by rewrite insert_id.
Qed.

Section AlongASchedule.

Variable m2j : Z → Z.

(** A history [h] that each call advances, a condition [ok] on the next
    call, and a property [P] of the sources that calls respect. *)
Variable H : Type.
Variable next : H → clock * pm_op → H.
Variable ok : H → clock * pm_op → Prop.
Variable P : H → wakeup_source → Prop.

Hypothesis P_other : ∀ h c w, ok h c → P h w → P (next h c) w.
Hypothesis P_target :
  ∀ h c w, ok h c → ws_inv w → P h w → P (next h c) (ws_after m2j c w).

(** A property of the sources that every call respects holds at the end of
    every schedule. *)
Lemma pm_run_sources cs : ∀ h s s',
  pm_inv s → schedule_ok s cs → all_ok next ok h cs →
  (∀ l w, mem s !! l = Some w → P h w) →
  pm_run m2j cs s = Some s' →
  ∀ l w, mem s' !! l = Some w → P (foldl next h cs) w.
Proof.
  induction cs as [|c cs IH]; intros h s s' Hinv Hok Hall HP; simpl.
  - by intros [= <-].
  - destruct Hall as [Hc Hall].
    destruct (pm_step_inv m2j c s Hinv) as (s1 & Hs & Hinv1 & Hfr).
    { intros l Hl. eapply Hok; [left|done]. }
    rewrite Hs. simpl. apply IH; try done.
    { eapply schedule_ok_frame; [done|]. intros c' l Hc'. eapply Hok.
      by right. }
    intros l w Hl. destruct (op_target c.2) as [l0|] eqn:Ht.
    + destruct (Hok c l0) as [w0 Hl0]; [left|done|].
      destruct (pm_step_source m2j c l0 w0 s Hl0 (proj1 Hinv _ _ Hl0) Ht)
        as (s1' & Hs' & Hm).
      rewrite Hs in Hs'. injection Hs' as <-. rewrite Hm in Hl.
      destruct (decide (l0 = l)) as [->|Hne].
      * rewrite lookup_insert_eq in Hl. injection Hl as <-.
        apply P_target; eauto. by apply (proj1 Hinv l w0).
      * rewrite lookup_insert_ne in Hl by done. eauto.
    + rewrite pm_step_null in Hs by done. injection Hs as <-. eauto.
Qed.

End AlongASchedule.

Lemma pm_run_app m2j cs1 : ∀ cs2 s,
  pm_run m2j (cs1 ++ cs2) s = pm_run m2j cs1 s ≫= pm_run m2j cs2.
Proof.
  induction cs1 as [|c cs1 IH]; intros cs2 s; simpl; [done|].
  destruct (pm_step m2j c s); simpl; [apply IH|done].
Qed.

Lemma all_ok_trivial cs :
  all_ok (λ (_ : unit) (_ : clock * pm_op), tt) (λ _ _, True) tt cs.
Proof. induction cs; simpl; auto. Qed.

Lemma fresh_timer_inv s :
  fresh_system s → ∀ l w, mem s !! l = Some w → timer_inv w.
Proof. intros (_ & Hws & _) l w Hl. by destruct (Hws l w Hl) as [nm ->]. Qed.

Lemma ws_after_timer_inv m2j c w :
  ws_inv w → timer_inv w → timer_inv (ws_after m2j c w).
Proof.
  intros _ [Hidle Hexp]. destruct c as [clk o]. unfold ws_after, timer_inv.
  assert (Hnone : WS.active w = false → ∀ e, WS.timer w = Some e → False).
  { intros Ha e He. rewrite (Hidle Ha) in He. done. }
  destruct o as [p|p|p msec|p]; simpl;
    destruct (WS.active w) eqn:Ha; simpl;
    try (destruct (msec =? 0); simpl);
    try (destruct (time_after _ _); simpl);
    rewrite ?Ha;
    (split; [first [done | intros _; by apply Hidle]
            |first [done | by intros e [= <-]
                   | intros e He; by destruct (Hnone eq_refl e He)]]).
Qed.

(** X1. Along every schedule of the event entry points, run from a system
    of freshly created sources, the timer of an idle source is never
    pending, and a pending timer expires at the tick recorded in
    [timer_expires]. *)
Theorem timer_pending_only_while_active (m2j : Z → Z) (s0 : pm)
    (cs : list (clock * pm_op)) :
  fresh_system s0 →
  schedule_ok s0 cs →
  ∃ s, pm_run m2j cs s0 = Some s
       ∧ ∀ l w, mem s !! l = Some w →
           (WS.active w = false → WS.timer w = None)
           ∧ (∀ e, WS.timer w = Some e →
                WS.active w = true ∧ WS.timer_expires w = e).
Proof.
  intros Hfresh Hok.
  pose proof (fresh_system_inv s0 Hfresh) as Hinv.
  destruct (pm_run_inv m2j cs s0 Hinv Hok) as (s & Hrun & _ & _).
  exists s. split; [done|]. intros l w Hl.
  assert (Ht : timer_inv w).
  { apply (pm_run_sources m2j unit (λ _ _, tt) (λ _ _, True)
             (λ _, timer_inv) (λ _ _ _ _ H, H)
             (λ _ c w0 _, ws_after_timer_inv m2j c w0)
             cs tt s0 s Hinv Hok (all_ok_trivial cs)
             (fresh_timer_inv s0 Hfresh) Hrun l w Hl). }
  destruct Ht as [Hidle Hexp]. split; [done|]. intros e He.
  split; [|by apply Hexp].
  destruct (WS.active w) eqn:Ha; [done|]. rewrite Hidle in He; done.
Qed.

Lemma ws_after_times_inv m2j t c w :
  t ≤ ktime_get c.1 ≤ ktime_get_late c.1 → ws_inv w → times_inv t w →
  times_inv (ktime_get c.1) (ws_after m2j c w).
Proof.
  intros Ht _ [Hopen Hmax]. destruct c as [clk o]. simpl in *.
  unfold ws_after.
  destruct o as [p|p|p msec|p]; simpl;
    destruct (WS.active w) eqn:Ha; simpl;
    try (destruct (msec =? 0); simpl);
    try (destruct (time_after _ _); simpl);
    unfold times_inv, close_window; simpl; rewrite ?Ha;
    try specialize (Hopen eq_refl);
    (split; [first [done | intros _; lia]
            |try (destruct (_ >? _) eqn:Hgt); lia]).
Qed.

(** X2. When the calls of a schedule read times that do not decrease, the
    statistics of every source stay sound: [max_time] is never negative
    and never exceeds [total_time], and an open window did not start after
    the time of the last call. *)
Theorem window_statistics_sound (m2j : Z → Z) (t0 : Z) (s0 : pm)
    (cs : list (clock * pm_op)) :
  fresh_system s0 →
  schedule_ok s0 cs →
  clocks_from t0 cs →
  ∃ s, pm_run m2j cs s0 = Some s
       ∧ ∀ l w, mem s !! l = Some w →
           0 ≤ WS.max_time w ≤ WS.total_time w
           ∧ (WS.active w = true → WS.last_time w ≤ last_clock t0 cs).
Proof.
  intros Hfresh Hok Hclk.
  pose proof (fresh_system_inv s0 Hfresh) as Hinv.
  destruct (pm_run_inv m2j cs s0 Hinv Hok) as (s & Hrun & _ & _).
  exists s. split; [done|]. intros l w Hl.
  assert (Ht : times_inv (last_clock t0 cs) w).
  { apply (pm_run_sources m2j Z (λ _ c, ktime_get c.1)
             (λ t c, t ≤ ktime_get c.1 ≤ ktime_get_late c.1) times_inv)
      with s0 s l;
      try done.
    - intros t c w0 Hle [Hopen Hmax]. split; [|done].
      intros Ha. specialize (Hopen Ha). lia.
    - intros t c w0 Hle. by apply ws_after_times_inv.
    - intros l0 w0 Hl0. destruct Hfresh as (_ & Hws & _).
      by destruct (Hws l0 w0 Hl0) as [nm ->]. }
  destruct Ht as [Hopen Hmax]. done.
Qed.

(** X3. In every state a schedule reaches from freshly created sources, one
    call of [__pm_relax] on an active source closes its window: the
    source becomes inactive with [relax_count = active_count],
    [events_in_progress] goes down by one and stays non-negative, and the
    global [event_count] is incremented.  The branch that undoes the
    increment of [relax_count] is never taken. *)
Theorem relax_closes_open_window (m2j : Z → Z) (s0 : pm)
    (cs : list (clock * pm_op)) (clk : clock) :
  fresh_system s0 →
  schedule_ok s0 cs →
  ∃ s, pm_run m2j cs s0 = Some s
       ∧ ∀ l w, mem s !! l = Some w → WS.active w = true →
           ∃ s' w',
             __pm_relax clk (Some l) s = Some s'
             ∧ mem s' !! l = Some w'
             ∧ WS.active w' = false
             ∧ WS.relax_count w' = WS.active_count w'
             ∧ WS.active_count w' = WS.active_count w
             ∧ events_in_progress s' = events_in_progress s - 1
             ∧ 0 ≤ events_in_progress s'
             ∧ event_count s' = atomic_inc (event_count s).
Proof.
  intros Hfresh Hok.
  destruct (pm_run_inv m2j cs s0 (fresh_system_inv s0 Hfresh) Hok)
    as (s & Hrun & Hinv & _).
  exists s. split; [done|]. intros l w Hl Ha.
  pose proof (proj1 Hinv l w Hl) as Hw.
  pose proof (pm_inv_range s l w Hinv Hl) as [Hlo Hhi].
  rewrite (relax_effect clk l w s Hl Hw), Ha.
  eexists _, _. split; [reflexivity|]. rewrite lookup_store_eq.
  split; [reflexivity|]. simpl. split; [done|].
  split; [by apply ws_inv_active_next|]. split; [done|].
  rewrite Ha in *. simpl in *. split; [word_lia|]. split; [word_lia|done].
Qed.

Lemma stay_awake_active_calls m2j l clks : ∀ w s x,
  mem s !! l = Some w → WS.active w = true → WS.event_count w = ulong x →
  pm_run m2j (stay_awake_calls l clks) s
  = Some (store l (WS.set_event_count
                     (ulong (x + Z.of_nat (length clks))) w) s).
Proof.
  induction clks as [|c clks IH]; intros w s x Hl Ha Hx; simpl.
  - rewrite Z.add_0_r, <- Hx. f_equal. symmetry.
    rewrite store_same; [done|]. by destruct w.
  - change (pm_step m2j (c, op_stay_awake (Some l)) s)
      with (__pm_stay_awake c (Some l) s).
    rewrite (stay_awake_effect c l w s Hl), Ha. simpl.
    set (w0 := WS.set_event_count (ulong (WS.event_count w + 1)) w).
    rewrite (IH w0 (store l w0 s) (x + 1));
      [| apply lookup_store_eq | done |].
    + rewrite store_store. do 2 f_equal. unfold w0, WS.set_event_count. simpl.
      f_equal. f_equal. lia.
    + simpl. rewrite Hx. word_lia.
Qed.

(** X4. Calls of [__pm_stay_awake] do not nest.  After any number of them
    on an idle source, a single [__pm_relax] closes the window: the source
    is inactive, one activation and one relaxation were counted whatever
    the number of calls, the window recorded in [total_time] starts at the
    first call, [events_in_progress] is back where it was and the global
    [event_count] went up by one. *)
Theorem stay_awake_does_not_nest (m2j : Z → Z) (l : loc) (c0 : clock)
    (clks : list clock) (clk : clock) (w : wakeup_source) (s : pm) :
  mem s !! l = Some w → ws_inv w → WS.active w = false →
  - 2 ^ 31 ≤ events_in_progress s < 2 ^ 31 - 1 →
  ∃ s' w',
    pm_run m2j (stay_awake_calls l (c0 :: clks) ++ [(clk, op_relax (Some l))])
      s = Some s'
    ∧ mem s' !! l = Some w'
    ∧ WS.active w' = false
    ∧ WS.active_count w' = ulong (WS.active_count w + 1)
    ∧ WS.relax_count w' = WS.active_count w'
    ∧ WS.event_count w'
      = ulong (WS.event_count w + 1 + Z.of_nat (length clks))
    ∧ WS.total_time w' = WS.total_time w + (ktime_get clk - ktime_get c0)
    ∧ events_in_progress s' = events_in_progress s
    ∧ event_count s' = atomic_inc (event_count s).
Proof.
  intros Hl Hw Ha Hip. rewrite pm_run_app. simpl.
  change (pm_step m2j (c0, op_stay_awake (Some l)) s)
    with (__pm_stay_awake c0 (Some l) s).
  rewrite (stay_awake_effect c0 l w s Hl), Ha.
  set (w1 := (wakeup_source_activate c0 _ s).1).
  set (s1 := set_events_in_progress _ s).
  cbn [mbind option_bind].
  rewrite (stay_awake_active_calls m2j l clks w1 (store l w1 s1)
             (WS.event_count w + 1));
    [| apply lookup_store_eq | done | done].
  cbn [mbind option_bind]. rewrite store_store.
  change (pm_step m2j (clk, op_relax (Some l)) ?s)
    with (__pm_relax clk (Some l) s).
  unfold __pm_relax. rewrite lookup_store_eq. cbn [mbind option_bind].
  cbn [WS.active WS.set_event_count]. unfold w1 at 1. cbn [WS.active fst
    wakeup_source_activate WS.set_last_time WS.set_timer_expires
    WS.set_active_count WS.set_active].
  rewrite deactivate_closes.
  2:{ simpl. rewrite (ws_inv_inactive_eq w Hw Ha). done. }
  cbn [mbind option_bind]. eexists _, _. split; [reflexivity|].
  rewrite lookup_store_eq. split; [reflexivity|]. simpl.
  rewrite (ws_inv_inactive_eq w Hw Ha).
  repeat split; try done. word_lia.
Qed.

(* ================================================================== *)
(** * The quiescence protocol at work *)
(* ================================================================== *)

Lemma filter_eq_length_NoDup (l : loc) (ls : list loc) :
  NoDup ls →
  length (filter (λ l', l' = l) ls) = if decide (l ∈ ls) then 1%nat else 0%nat.
Proof.
  induction 1 as [|x ls Hx Hnd IH]; [done|].
  rewrite filter_cons. destruct (decide (x = l)) as [->|Hne].
  - rewrite decide_True by left. simpl. rewrite IH.
    by rewrite decide_False.
  - rewrite IH. destruct (decide (l ∈ ls)) as [Hin|Hnin].
    + rewrite decide_True; [done|by right].
    + rewrite decide_False; [done|].
      intros [->|?]%elem_of_cons; done.
Qed.

(** X5. [pm_wakeup_update_hit_counts], on a registry without duplicates
    that holds allocated sources only, returns, leaves every file-scope
    variable and the registry alone, increments [hit_count] (wrapping) of
    each registered source that is active, and leaves every other source,
    idle or unregistered, as it was. *)
Theorem hit_counts_charge_active_sources (s : pm) :
  registry_ok s →
  NoDup (wakeup_sources s) →
  ∃ s', pm_wakeup_update_hit_counts s = Some s'
        ∧ s' = set_mem (mem s') s
        ∧ dom (mem s') = dom (mem s)
        ∧ ∀ l w, mem s !! l = Some w →
            mem s' !! l
            = Some (if decide (l ∈ wakeup_sources s ∧ WS.active w = true)
                    then WS.set_hit_count (ulong (WS.hit_count w + 1)) w
                    else w).
Proof.
  intros Hreg Hnd.
  destruct (pm_wakeup_update_hit_counts_spec s Hreg)
    as (s' & Hrun & H1 & H2 & H3 & H4 & H5 & H6 & H7).
  exists s'. split; [done|]. split.
  { destruct s, s'. simpl in *. by subst. }
  split; [done|]. intros l w Hl. rewrite H7, Hl. simpl. f_equal.
  rewrite filter_eq_length_NoDup by done.
  destruct (decide (l ∈ wakeup_sources s)) as [Hin|Hnin]; simpl.
  - unfold hit. destruct (WS.active w) eqn:Ha.
    + by rewrite decide_True.
    + rewrite decide_False; [done|]. by intros [_ ?].
  - rewrite decide_False; [done|]. by intros [? _].
Qed.

(** Each call on an allocated source, in a state that satisfies the
    invariant, changes nothing at all, or leaves the global [event_count]
    alone and a window open, or increments the global [event_count]. *)
Lemma pm_step_progress m2j c s s' :
  pm_inv s →
  (∀ l, op_target c.2 = Some l → is_Some (mem s !! l)) →
  pm_step m2j c s = Some s' →
  s' = s
  ∨ (event_count s' = event_count s ∧ 1 ≤ events_in_progress s')
  ∨ event_count s' = atomic_inc (event_count s).
Proof.
  intros Hinv Hok. destruct (op_target c.2) as [l|] eqn:Ht.
  2:{ rewrite pm_step_null by done. intros [= <-]. by left. }
  destruct (Hok l eq_refl) as [w Hl].
  pose proof (proj1 Hinv l w Hl) as Hw.
  pose proof (pm_inv_range s l w Hinv Hl) as [Hlo Hhi].
  destruct c as [clk o]. unfold pm_step.
  destruct o as [p|p|p msec|p]; simpl in *; subst p.
  - rewrite (stay_awake_effect clk l w s Hl).
    destruct (WS.active w); intros [= <-]; right; left; simpl in *;
      (split; [done|word_lia]).
  - rewrite (relax_effect clk l w s Hl Hw).
    destruct (WS.active w); intros [= <-]; [right; by right|by left].
  - rewrite (wakeup_event_effect m2j clk l msec w s Hl Hw).
    destruct (msec =? 0).
    + destruct (WS.active w); intros [= <-]; right; by right.
    + destruct (WS.active w); destruct (time_after _ _); intros [= <-];
        right; left; simpl in *; (split; [done|word_lia]).
  - unfold pm_wakeup_timer_fn. rewrite (relax_effect clk l w s Hl Hw).
    destruct (WS.active w); intros [= <-]; [right; by right|by left].
Qed.

(** Along a schedule the global [event_count] goes up by the number [k] of
    windows closed, at most one per call; if none was closed and none is
    open at the end, nothing has changed. *)
Lemma pm_run_progress m2j cs : ∀ s s',
  pm_inv s → schedule_ok s cs →
  pm_run m2j cs s = Some s' →
  ∃ k : nat,
    (k ≤ length cs)%nat
    ∧ uint (event_count s') = uint (event_count s + Z.of_nat k)
    ∧ (k = 0%nat → events_in_progress s' = 0 → s' = s).
Proof.
  induction cs as [|c cs IH]; intros s s' Hinv Hok; simpl.
  - intros [= <-]. exists 0%nat. split; [done|]. split; [|done].
    by rewrite Z.add_0_r.
  - assert (Hc : ∀ l, op_target c.2 = Some l → is_Some (mem s !! l)).
    { intros l Hl. eapply Hok; [left|done]. }
    destruct (pm_step_inv m2j c s Hinv Hc) as (s1 & Hs & Hinv1 & Hfr).
    rewrite Hs. simpl. intros Hrun.
    destruct (IH s1 s' Hinv1) as (k & Hk & Hec & Hsame); [|done|].
    { eapply schedule_ok_frame; [done|]. intros c' l Hc'. eapply Hok.
      by right. }
    destruct (pm_step_progress m2j c s s1 Hinv Hc Hs)
      as [->|[[Hec1 Hip1]|Hec1]].
    + exists k. split; [lia|]. done.
    + exists k. split; [lia|]. rewrite <- Hec1. split; [done|].
      intros Hk0 Hz. rewrite (Hsame Hk0 Hz) in Hz. lia.
    + exists (S k). split; [lia|]. split; [|done].
      rewrite Hec, Hec1. word_lia.
Qed.

Lemma pm_inv_same_counts s s' :
  mem s' = mem s → events_in_progress s' = events_in_progress s →
  pm_inv s → pm_inv s'.
Proof.
  intros Hm Hp (H1 & H2 & H3). unfold pm_inv, active_sources.
  rewrite Hm, Hp. done.
Qed.

(** X6. The suspend check detects every event.  Once
    [pm_save_wakeup_count] has succeeded, [pm_check_wakeup_events] answers
    true at once and changes nothing; and if it answers true after other
    contexts have made fewer than [2^32] calls of the event entry points,
    then those calls have changed nothing whatsoever: no window was
    opened, none was closed, no counter of any source moved. *)
Theorem check_passes_only_if_nothing_happened (m2j : Z → Z) (count : Z)
    (s s0 : pm) :
  pm_inv s →
  pm_save_wakeup_count count s = Some (true, s0) →
  pm_check_wakeup_events s0 = Some (true, s0)
  ∧ ∀ cs s1 s2,
      schedule_ok s cs →
      Z.of_nat (length cs) < 2 ^ 32 →
      pm_run m2j cs s0 = Some s1 →
      pm_check_wakeup_events s1 = Some (true, s2) →
      s1 = s0 ∧ s2 = s0.
Proof.
  intros Hinv Hsave.
  assert (Hs0 : s0 = set_events_check_enabled true (set_saved_count count s)
                ∧ count = uint (event_count s) ∧ events_in_progress s = 0).
  { revert Hsave. unfold pm_save_wakeup_count, atomic_read.
    destruct (count =? uint (event_count s)) eqn:Hc;
      destruct (events_in_progress s =? 0) eqn:Hp; simpl;
      try (destruct (pm_wakeup_update_hit_counts s); simpl; by intros [=]).
    intros [= <-]. split; [done|]. lia. }
  destruct Hs0 as (-> & -> & Hz).
  set (s0 := set_events_check_enabled true _).
  assert (Hcheck0 : pm_check_wakeup_events s0 = Some (true, s0)).
  { unfold pm_check_wakeup_events, atomic_read. simpl.
    rewrite Z.eqb_refl, Hz. simpl. by destruct s. }
  split; [done|]. intros cs s1 s2 Hok Hlen Hrun Hcheck.
  assert (Hinv0 : pm_inv s0) by by eapply pm_inv_same_counts.
  destruct (pm_run_progress m2j cs s0 s1 Hinv0 Hok Hrun)
    as (k & Hk & Hec & Hsame).
  destruct (pm_run_frame m2j cs s0 s1 Hrun) as (_ & _ & Hen & Hsv).
  assert (Hret : uint (event_count s1) = uint (event_count s)
                 ∧ events_in_progress s1 = 0).
  { revert Hcheck. unfold pm_check_wakeup_events, atomic_read.
    rewrite Hen, Hsv. simpl.
    destruct (uint (event_count s1) =? uint (event_count s)) eqn:Hc;
      destruct (events_in_progress s1 =? 0) eqn:Hp; simpl;
      try (destruct (pm_wakeup_update_hit_counts _); simpl; by intros [=]).
    intros _. lia. }
  destruct Hret as [Huc Hz1]. simpl in Hec.
  assert (k = 0%nat) as Hk0 by (rewrite Huc in Hec; word_lia).
  assert (s1 = s0) as -> by by apply Hsame.
  split; [done|]. rewrite Hcheck0 in Hcheck. by injection Hcheck.
Qed.

(** X7. Reading and saving compose.  The count that [pm_get_wakeup_count]
    stores can be saved in the state in which it was read whenever nothing
    is in progress there: [pm_save_wakeup_count] then succeeds, records
    the count in [saved_count] and arms [events_check_enabled], changing
    nothing else.  This is the case when the call returned true and no call
    of another context fell between its read of [events_in_progress] and
    its read of [event_count]. *)
Theorem get_then_save_succeeds (m2j : Z → Z) (e : get_env) (fuel : nat)
    (s : pm) (ret : bool) (count : Z) (s' : pm) :
  pm_get_wakeup_count m2j e fuel s = Some (ret, count, s') →
  (events_in_progress s' = 0 →
   pm_save_wakeup_count count s'
   = Some (true, set_events_check_enabled true (set_saved_count count s')))
  ∧ (ret = true → before_count e = [] →
     pm_save_wakeup_count count s'
     = Some (true, set_events_check_enabled true (set_saved_count count s'))).
Proof.
  unfold pm_get_wakeup_count, atomic_read.
  destruct (get_wait m2j e fuel 0 _) as [s1|]; simpl; [|done].
  destruct (pm_run m2j (before_count e) s1) as [s2|] eqn:Hr; simpl; [|done].
  intros [= Hret <- <-].
  assert (Hsave : events_in_progress s2 = 0 →
            pm_save_wakeup_count (uint (event_count s2)) s2
            = Some (true, set_events_check_enabled true
                            (set_saved_count (uint (event_count s2)) s2))).
  { intros Hz. unfold pm_save_wakeup_count, atomic_read.
    by rewrite Z.eqb_refl, Hz. }
  split; [done|]. intros -> Hnil. rewrite Hnil in Hr. injection Hr as <-.
  apply Hsave. lia.
Qed.

(* ================================================================== *)
(** * Registration and destruction *)
(* ================================================================== *)

Lemma filter_ne_notin (l : loc) (ls : list loc) :
  l ∉ ls → filter (λ l', l' ≠ l) ls = ls.
Proof.
  induction ls as [|x ls IH]; [done|]. intros Hnin.
  rewrite filter_cons, decide_True.
  - f_equal. apply IH. intros ?. apply Hnin. by right.
  - intros ->. apply Hnin. by left.
Qed.

Lemma registry_ok_notin s l :
  registry_ok s → mem s !! l = None → l ∉ wakeup_sources s.
Proof. intros Hreg Hl Hin. destruct (Hreg l Hin) as [w Hw]. congruence. Qed.

(** A call that is made on another source, or on none, leaves the source
    at [l] as it is. *)
Lemma pm_step_other m2j c l s s' :
  op_target c.2 ≠ Some l →
  pm_step m2j c s = Some s' → mem s' !! l = mem s !! l.
Proof.
  destruct c as [clk o]. unfold pm_step. simpl.
  assert (Hrelax : ∀ p, p ≠ Some l → __pm_relax clk p s = Some s' →
                        mem s' !! l = mem s !! l).
  { intros [l0|] Hne; simpl; [|by intros [= <-]].
    destruct (mem s !! l0) as [w|] eqn:Hl0; simpl; [|done].
    assert (l0 ≠ l) by congruence.
    destruct (WS.active w).
    - pose proof (deactivate_frame clk w s) as (Hm & _).
      destruct (wakeup_source_deactivate clk w s) as [w' s1].
      intros [= <-]. rewrite lookup_store_ne by done. simpl in Hm.
      by rewrite Hm.
    - intros [= <-]. by rewrite lookup_store_ne. }
  destruct o as [[l0|]|p|[l0|] msec|p]; simpl; intros Hne;
    try (by apply Hrelax); try (by intros [= <-]);
    assert (l0 ≠ l) by congruence.
  - destruct (mem s !! l0) as [w|] eqn:Hl0; simpl; [|done].
    destruct (WS.active w); simpl; intros [= <-];
      by rewrite lookup_store_ne.
  - destruct (mem s !! l0) as [w|] eqn:Hl0; simpl; [|done].
    destruct (WS.active w); simpl; destruct (msec =? 0).
    + match goal with
      | |- context [wakeup_source_deactivate ?c ?a ?b] =>
          pose proof (deactivate_frame c a b) as (Hm & _);
          destruct (wakeup_source_deactivate c a b) as [w' s1]
      end.
      intros [= <-]. rewrite lookup_store_ne by done. simpl in Hm.
      by rewrite Hm.
    + destruct (time_after _ _); intros [= <-]; by rewrite lookup_store_ne.
    + match goal with
      | |- context [wakeup_source_deactivate ?c ?a ?b] =>
          pose proof (deactivate_frame c a b) as (Hm & _);
          destruct (wakeup_source_deactivate c a b) as [w' s1]
      end.
      intros [= <-]. rewrite lookup_store_ne by done. simpl in Hm.
      by rewrite Hm.
    + destruct (time_after _ _); intros [= <-]; by rewrite lookup_store_ne.
Qed.

Lemma pm_run_other m2j cs l : ∀ s s',
  (∀ c, c ∈ cs → op_target c.2 ≠ Some l) →
  pm_run m2j cs s = Some s' → mem s' !! l = mem s !! l.
Proof.
  induction cs as [|c cs IH]; intros s s' Hne; simpl; [by intros [= <-]|].
  destruct (pm_step m2j c s) as [s1|] eqn:Hs; simpl; [|done].
  intros Hrun. rewrite (IH s1 s') by (try done; intros; apply Hne; by right).
  eapply pm_step_other; [|done]. apply Hne. by left.
Qed.

Lemma store_comm l l0 w w0 s :
  l0 ≠ l → store l0 w0 (store l w s) = store l w (store l0 w0 s).
Proof.
  intros Hne. unfold store, set_mem. simpl. f_equal.
  by apply insert_insert_ne.
Qed.

(** A call that is made on another source, or on none, does not depend on
    the source at [l]: it commutes with a write to it. *)
Lemma pm_step_store_other m2j c l w s :
  op_target c.2 ≠ Some l →
  pm_step m2j c (store l w s) = store l w <$> pm_step m2j c s.
Proof.
  destruct c as [clk o]. unfold pm_step. simpl.
  assert (Hclose : ∀ c0 l0 w0 s0, l ≠ l0 →
            (let '(ws, s1) := wakeup_source_deactivate c0 w0 (store l w s0)
             in Some (store l0 ws s1))
            = store l w <$>
              (let '(ws, s1) := wakeup_source_deactivate c0 w0 s0
               in Some (store l0 ws s1))).
  { intros c0 l0 w0 s0 Hne. rewrite deactivate_store.
    destruct (wakeup_source_deactivate c0 w0 s0) as [w' s1]. simpl.
    by rewrite store_comm. }
  assert (Hrelax : ∀ c0 p, p ≠ Some l →
            __pm_relax c0 p (store l w s) = store l w <$> __pm_relax c0 p s).
  { intros c0 [l0|] Hne; simpl; [|done].
    assert (l ≠ l0) by congruence.
    rewrite lookup_insert_ne by done.
    destruct (mem s !! l0) as [w0|]; simpl; [|done].
    destruct (WS.active w0); simpl; [by apply Hclose|].
    by rewrite store_comm. }
  destruct o as [[l0|]|p|[l0|] msec|p]; simpl; intros Hne;
    try (by apply Hrelax); try done; assert (l ≠ l0) by congruence;
    rewrite lookup_insert_ne by done;
    (destruct (mem s !! l0) as [w0|]; simpl; [|done]).
  - destruct (WS.active w0); simpl; by rewrite <- store_comm.
  - destruct (WS.active w0); simpl; destruct (msec =? 0); simpl;
      try (by rewrite <- store_comm); try (by apply Hclose).
    by apply (Hclose (late clk) l0 _
                (set_events_in_progress (atomic_inc (events_in_progress s))
                   s)).
Qed.

Lemma pm_run_store_other m2j cs l w : ∀ s,
  (∀ c, c ∈ cs → op_target c.2 ≠ Some l) →
  pm_run m2j cs (store l w s) = store l w <$> pm_run m2j cs s.
Proof.
  induction cs as [|c cs IH]; intros s Hne; simpl; [done|].
  rewrite pm_step_store_other by (apply Hne; by left).
  destruct (pm_step m2j c s) as [s1|]; simpl; [|done].
  apply IH. intros c' Hc'. apply Hne. by right.
Qed.

(** The event entry points do not read the registry. *)
Lemma pm_step_registry m2j c r s :
  pm_step m2j c (set_wakeup_sources r s)
  = set_wakeup_sources r <$> pm_step m2j c s.
Proof.
  destruct c as [clk o]. unfold pm_step. simpl.
  assert (Hclose : ∀ c0 l0 w0 s0,
            (let '(ws, s1) :=
               wakeup_source_deactivate c0 w0 (set_wakeup_sources r s0)
             in Some (store l0 ws s1))
            = set_wakeup_sources r <$>
              (let '(ws, s1) := wakeup_source_deactivate c0 w0 s0
               in Some (store l0 ws s1))).
  { intros c0 l0 w0 s0. unfold wakeup_source_deactivate. simpl.
    by destruct (negb _). }
  assert (Hrelax : ∀ c0 p,
            __pm_relax c0 p (set_wakeup_sources r s)
            = set_wakeup_sources r <$> __pm_relax c0 p s).
  { intros c0 [l0|]; simpl; [|done].
    destruct (mem s !! l0) as [w0|]; simpl; [|done].
    destruct (WS.active w0); simpl; [by apply Hclose|done]. }
  destruct o as [[l0|]|p|[l0|] msec|p]; simpl;
    try (by apply Hrelax); try done;
    (destruct (mem s !! l0) as [w0|]; simpl; [|done]).
  - by destruct (WS.active w0).
  - destruct (WS.active w0); simpl; destruct (msec =? 0); simpl;
      try done; try (by apply Hclose).
    by apply (Hclose (late clk) l0 _
                (set_events_in_progress (atomic_inc (events_in_progress s))
                   s)).
Qed.

Lemma pm_run_registry m2j cs r : ∀ s,
  pm_run m2j cs (set_wakeup_sources r s)
  = set_wakeup_sources r <$> pm_run m2j cs s.
Proof.
  induction cs as [|c cs IH]; intros s; simpl; [done|].
  rewrite pm_step_registry.
  destruct (pm_step m2j c s) as [s1|]; simpl; [apply IH|done].
Qed.

(** A call of an event entry point commutes with the update of the hit
    count of every source but its own: a call that falls inside the pass
    of [pm_wakeup_update_hit_counts] can be counted as made before the
    pass, or after it. *)
Lemma hit_entry_commutes m2j c l s :
  op_target c.2 ≠ Some l →
  (pm_step m2j c s ≫= hit_entry l) = (hit_entry l s ≫= pm_step m2j c).
Proof.
  intros Hne. destruct (mem s !! l) as [w|] eqn:Hl.
  - rewrite (hit_entry_eq l w s Hl). simpl.
    rewrite pm_step_store_other by done.
    destruct (pm_step m2j c s) as [s1|] eqn:Hs; simpl; [|done].
    apply hit_entry_eq. by rewrite (pm_step_other m2j c l s s1 Hne Hs).
  - unfold hit_entry at 2. rewrite Hl. simpl.
    destruct (pm_step m2j c s) as [s1|] eqn:Hs; simpl; [|done].
    unfold hit_entry. by rewrite (pm_step_other m2j c l s s1 Hne Hs), Hl.
Qed.

(** The effect of [wakeup_source_register] when the allocator answers
    with an address [l] that is not on the list. *)
Lemma register_effect nm l k s :
  l ∉ wakeup_sources s →
  wakeup_source_register nm (Some l) k s
  = Some (Some l,
          set_wakeup_sources (l :: wakeup_sources s)
            (store l (WS.set_name (if k then nm else None) kzalloc_ws) s)).
Proof.
  intros Hnin.
  unfold wakeup_source_register, wakeup_source_create, wakeup_source_add.
  simpl. rewrite lookup_insert_eq. simpl. rewrite decide_False by done.
  simpl. rewrite store_store. by destruct nm, k.
Qed.

(** X8. [wakeup_source_register].  When the allocation of the object fails
    it returns null and changes nothing.  When the allocator answers with
    a free address, the call returns it; the new source is idle with all
    counters zero and heads the registry; it has the given name when
    [kstrdup] succeeds, and no name when [kstrdup] fails, which the call
    does not report; no other source is touched; the registry stays sound
    and free of duplicates; and the system invariant survives as long as
    an [int] can count the sources. *)
Theorem wakeup_source_register_spec (nm : option string) (l : loc)
    (k : bool) (s : pm) :
  registry_ok s →
  NoDup (wakeup_sources s) →
  mem s !! l = None →
  wakeup_source_register nm None k s = Some (None, s)
  ∧ ∃ s',
      wakeup_source_register nm (Some l) k s = Some (Some l, s')
      ∧ mem s' !! l
        = Some (WS.set_name (if k then nm else None) kzalloc_ws)
      ∧ (∀ l', l' ≠ l → mem s' !! l' = mem s !! l')
      ∧ wakeup_sources s' = l :: wakeup_sources s
      ∧ registry_ok s'
      ∧ NoDup (wakeup_sources s')
      ∧ events_in_progress s' = events_in_progress s
      ∧ event_count s' = event_count s
      ∧ (pm_inv s → Z.of_nat (size (mem s)) + 1 < 2 ^ 31 → pm_inv s').
Proof.
  intros Hreg Hnd Hl. split; [done|].
  rewrite register_effect by by apply registry_ok_notin.
  eexists. split; [reflexivity|]. simpl.
  split; [apply lookup_insert_eq|].
  split; [intros l' Hne; by apply lookup_insert_ne|].
  split; [done|]. split.
  { intros l' [->|Hin]%elem_of_cons; simpl.
    - rewrite lookup_insert_eq. eauto.
    - destruct (Hreg l' Hin) as [w Hw].
      rewrite lookup_insert_ne; [eauto|]. intros ->. congruence. }
  split.
  { apply NoDup_cons. split; [|done]. by apply registry_ok_notin. }
  split; [done|]. split; [done|].
  intros (Hws & Hip & Hsz) Hsize. split; [|split]; simpl.
  - intros l' w. destruct (decide (l = l')) as [<-|Hne].
    + rewrite lookup_insert_eq. intros [= <-]. unfold ws_inv. simpl.
      repeat split; done.
    + rewrite lookup_insert_ne by done. apply Hws.
  - unfold active_sources. simpl.
    rewrite map_filter_insert_False by (simpl; done).
    rewrite delete_id by done. done.
  - rewrite map_size_insert_None by done. lia.
Qed.

(** Unregistering an idle source that heads the registry, while the other
    contexts do not call on it: what is left is what their calls make of
    the state without the source. *)
Lemma unregister_registered m2j w l others fuel s :
  registry_ok s → mem s !! l = None → WS.active w = false →
  (∀ c, c ∈ others 0%nat → op_target c.2 ≠ Some l) →
  wakeup_source_unregister m2j others (S fuel) (Some l)
    (set_wakeup_sources (l :: wakeup_sources s) (store l w s))
  = pm_run m2j (others 0%nat) s.
Proof.
  intros Hreg Hl Ha Hne.
  unfold wakeup_source_unregister, wakeup_source_remove. simpl.
  rewrite lookup_insert_eq. simpl. rewrite decide_True by left. simpl.
  rewrite filter_cons, decide_False by (intros H; by apply H).
  rewrite filter_ne_notin by by apply registry_ok_notin.
  rewrite lookup_insert_eq. simpl. rewrite Ha.
  replace (set_wakeup_sources (wakeup_sources s)
             (set_wakeup_sources (l :: wakeup_sources s) (store l w s)))
    with (store l w s) by (by destruct s).
  rewrite pm_run_store_other by done.
  destruct (pm_run m2j (others 0%nat) s) as [s1|] eqn:Hrun; simpl; [|done].
  pose proof (pm_run_other m2j _ l s s1 Hne Hrun) as Hl1. rewrite Hl in Hl1.
  destruct s1 as [en ec sc ip reg m]. unfold set_mem, store. simpl in *.
  do 2 f_equal. rewrite delete_insert_eq. by apply delete_id.
Qed.

(** X9. Registering a source and unregistering it at once is a round
    trip, whatever the name and the free address the allocator chose: the
    source is idle when [wakeup_source_destroy] tests it, and what is left
    after the object is freed is the state before the registration with
    the calls that the other contexts made on other sources in the
    meantime; when they made none, exactly the state before. *)
Theorem register_unregister_round_trip (m2j : Z → Z) (nm : option string)
    (l : loc) (k : bool) (others : nat → list (clock * pm_op)) (fuel : nat)
    (s : pm) :
  registry_ok s →
  mem s !! l = None →
  (∀ c, c ∈ others 0%nat → op_target c.2 ≠ Some l) →
  ∃ s', wakeup_source_register nm (Some l) k s = Some (Some l, s')
        ∧ wakeup_source_unregister m2j others (S fuel) (Some l) s'
          = pm_run m2j (others 0%nat) s
        ∧ (others 0%nat = [] →
           wakeup_source_unregister m2j others (S fuel) (Some l) s'
           = Some s).
Proof.
  intros Hreg Hl Hne.
  rewrite register_effect by by apply registry_ok_notin.
  eexists. split; [reflexivity|].
  rewrite unregister_registered by done. split; [done|]. by intros ->.
Qed.

(** Calls that only end events leave an idle source as it is. *)
Lemma pm_run_idle m2j cs l w : ∀ s s',
  only_relaxes l cs → mem s !! l = Some w → WS.active w = false →
  pm_run m2j cs s = Some s' → mem s' !! l = Some w.
Proof.
  induction cs as [|c cs IH]; intros s s' Hrel Hl Ha; simpl;
    [by intros [= <-]|].
  destruct (pm_step m2j c s) as [s1|] eqn:Hs; simpl; [|done].
  apply IH; [intros c' Hc'; apply Hrel; by right| |done].
  destruct (decide (op_target c.2 = Some l)) as [Ht|Ht].
  - assert (Hnoop : ∀ clk, __pm_relax clk (Some l) s = Some s).
    { intros clk. unfold __pm_relax. rewrite Hl. simpl. rewrite Ha.
      by rewrite store_same. }
    destruct c as [clk o].
    destruct (Hrel (clk, o)) as [Ho|Ho]; [by left|done|..];
      simpl in Ho; subst o;
      unfold pm_step, pm_wakeup_timer_fn in Hs; cbn [fst snd] in Hs;
      rewrite Hnoop in Hs; by injection Hs as <-.
  - by rewrite (pm_step_other m2j c l s s1 Ht Hs).
Qed.

(** On an idle source the wait of [wakeup_source_destroy] ends at the
    first test; what is left are the calls that other contexts make before
    the object is freed. *)
Lemma destroy_wait_idle m2j others fuel i l w s :
  mem s !! l = Some w → WS.active w = false →
  destroy_wait m2j others (S fuel) i l s = pm_run m2j (others i) s.
Proof.
  intros Hl Ha. simpl. rewrite Hl. simpl.
  destruct (pm_run m2j (others i) s); simpl; [by rewrite Ha|done].
Qed.

(** When the wait of [wakeup_source_destroy] ends and the other contexts
    have reported no new event on the source, the source is idle when it
    is freed and the invariant holds. *)
Lemma destroy_wait_sound m2j others l fuel : ∀ i s s1,
  pm_inv s →
  (∀ j, schedule_ok s (others j)) →
  (∀ j, only_relaxes l (others j)) →
  destroy_wait m2j others fuel i l s = Some s1 →
  pm_inv s1 ∧ same_frame s s1
  ∧ ∃ w, mem s1 !! l = Some w ∧ WS.active w = false.
Proof.
  induction fuel as [|fuel IH]; intros i s s1 Hinv Hok Hrel; simpl; [done|].
  destruct (mem s !! l) as [w|] eqn:Hl; simpl; [|done].
  destruct (pm_run_inv m2j (others i) s Hinv (Hok i))
    as (s2 & Hrun & Hinv2 & Hfr).
  rewrite Hrun. simpl. destruct (WS.active w) eqn:Ha.
  - intros Hw.
    destruct (IH (S i) s2 s1 Hinv2) as (Hinv1 & Hfr1 & Hidle); [|done..|].
    { intros j. eapply schedule_ok_frame; [done|apply Hok]. }
    split; [done|]. split; [by eapply same_frame_trans|done].
  - intros [= <-]. split; [done|]. split; [done|]. exists w.
    split; [|done]. by eapply pm_run_idle.
Qed.

(** X10. [wakeup_source_destroy] frees an idle source, as long as no new
    event is reported on it meanwhile.  The function tests [active] under
    the lock of the source and frees the object after it has released the
    lock; when the calls that other contexts make on the source while the
    function runs only end events ([__pm_relax], timer expiries), then
    whenever it returns the source was idle when it was freed, and the
    system invariant still holds: [events_in_progress] equals the number
    of active sources that remain.  The address is free afterwards and
    nothing else was released. *)
Theorem destroy_frees_idle_source_only (m2j : Z → Z)
    (others : nat → list (clock * pm_op)) (fuel : nat) (l : loc) (s s' : pm) :
  pm_inv s →
  (∀ j, schedule_ok s (others j)) →
  (∀ j, only_relaxes l (others j)) →
  wakeup_source_destroy m2j others fuel (Some l) s = Some s' →
  pm_inv s'
  ∧ mem s' !! l = None
  ∧ dom (mem s') = dom (mem s) ∖ {[l]}
  ∧ wakeup_sources s' = wakeup_sources s
  ∧ 0 ≤ events_in_progress s'.
Proof.
  intros Hinv Hok Hrel. unfold wakeup_source_destroy.
  destruct (destroy_wait m2j others fuel 0 l s) as [s1|] eqn:Hw;
    simpl; [|done].
  intros [= <-].
  destruct (destroy_wait_sound m2j others l fuel 0%nat s s1 Hinv Hok Hrel Hw)
    as ((Hws & Hip & Hsz) & (Hd & Hr & _) & (w & Hl & Ha)).
  assert (Hinv' : pm_inv (set_mem (delete l (mem s1)) s1)).
  { split; [|split]; simpl.
    - intros l' w'. rewrite lookup_delete_Some. intros [_ ?]. by eapply Hws.
    - unfold active_sources in *. simpl. rewrite map_filter_delete.
      rewrite delete_id; [done|]. apply map_lookup_filter_None. right.
      intros w' Hl'. rewrite Hl in Hl'. injection Hl' as <-. simpl.
      by rewrite Ha.
    - pose proof (map_subseteq_size (delete l (mem s1)) (mem s1)
                    (delete_subseteq _ _)). lia. }
  split; [done|]. simpl. split; [apply lookup_delete_eq|].
  split; [by rewrite dom_delete_L, Hd|]. split; [done|].
  destruct Hinv' as (_ & Hip' & _). simpl in Hip'. lia.
Qed.

(** X11. [wakeup_source_destroy] does not return while the source stays
    active: if the window is open on entry and none of the calls made by
    the other contexts is made on this source, then no number of
    iterations ends the wait. *)
Theorem destroy_blocks_while_active (m2j : Z → Z)
    (others : nat → list (clock * pm_op)) (l : loc) (w : wakeup_source)
    (s : pm) :
  mem s !! l = Some w →
  WS.active w = true →
  (∀ j c, c ∈ others j → op_target c.2 ≠ Some l) →
  ∀ fuel, wakeup_source_destroy m2j others fuel (Some l) s = None.
Proof.
  intros Hl Ha Hne fuel. unfold wakeup_source_destroy.
  assert (Hw : ∀ i s0, mem s0 !! l = Some w →
               destroy_wait m2j others fuel i l s0 = None).
  { induction fuel as [|fuel IH]; intros i s0 Hl0; simpl; [done|].
    rewrite Hl0. simpl.
    destruct (pm_run m2j (others i) s0) as [s1|] eqn:Hrun; simpl; [|done].
    rewrite Ha. apply IH. rewrite (pm_run_other m2j _ l s0 s1 (Hne i) Hrun).
    done. }
  by rewrite Hw.
Qed.

(** X21. The race that [wakeup_source_destroy] leaves open.  The test of
    [active] and the [kfree] are not under one hold of the lock: when
    another context reports an event on the source by [__pm_stay_awake]
    after the test has found it idle, the object is freed with its window
    open.  [events_in_progress] has been incremented for a source that no
    longer exists, so no call can bring it back: it exceeds the number of
    active sources by one, and the system invariant is lost. *)
Theorem destroy_races_with_new_event (m2j : Z → Z) (clk : clock)
    (others : nat → list (clock * pm_op)) (fuel : nat) (l : loc)
    (w : wakeup_source) (s : pm) :
  pm_inv s →
  mem s !! l = Some w →
  WS.active w = false →
  others 0%nat = [(clk, op_stay_awake (Some l))] →
  ∃ s', wakeup_source_destroy m2j others (S fuel) (Some l) s = Some s'
        ∧ mem s' = delete l (mem s)
        ∧ active_sources s' = active_sources s
        ∧ events_in_progress s' = events_in_progress s + 1
        ∧ events_in_progress s' = Z.of_nat (size (active_sources s')) + 1
        ∧ ¬ pm_inv s'.
Proof.
  intros Hinv Hl Ha Hoth.
  pose proof (pm_inv_range s l w Hinv Hl) as [Hlo Hhi].
  rewrite Ha in Hlo, Hhi. simpl in Hlo, Hhi.
  assert (Hip : atomic_inc (events_in_progress s) = events_in_progress s + 1)
    by word_lia.
  unfold wakeup_source_destroy.
  rewrite (destroy_wait_idle m2j others fuel 0%nat l w s Hl Ha), Hoth.
  cbn [pm_run].
  change (pm_step m2j (clk, op_stay_awake (Some l)) s)
    with (__pm_stay_awake clk (Some l) s).
  rewrite (stay_awake_effect clk l w s Hl), Ha.
  set (w1 := (wakeup_source_activate clk _ s).1).
  set (s1 := store l w1 _). cbn [mbind option_bind].
  exists (set_mem (delete l (mem s1)) s1). split; [done|].
  assert (Hm : mem (set_mem (delete l (mem s1)) s1) = delete l (mem s)).
  { unfold s1. simpl. apply delete_insert_eq. }
  assert (Hact : active_sources (set_mem (delete l (mem s1)) s1)
                 = active_sources s).
  { unfold active_sources. rewrite Hm, map_filter_delete. apply delete_id.
    apply map_lookup_filter_None. right. intros w' Hl'.
    rewrite Hl in Hl'. injection Hl' as <-. simpl. by rewrite Ha. }
  split; [done|]. split; [done|].
  assert (Hip1 : events_in_progress (set_mem (delete l (mem s1)) s1)
                 = events_in_progress s + 1) by (unfold s1; simpl; done).
  split; [done|]. destruct Hinv as (_ & Heq & _).
  split; [rewrite Hact, Hip1; lia|].
  intros (_ & Heq' & _). rewrite Hact, Hip1 in Heq'. lia.
Qed.

(* ================================================================== *)
(** * Devices and their wakeup sources *)
(* ================================================================== *)

(** X12. The error results of the device entry points.  A null device and
    a device that is not wakeup-capable are refused with [-EINVAL] by
    [device_wakeup_enable], [device_wakeup_disable] and
    [device_set_wakeup_enable]; a failed allocation makes
    [device_wakeup_enable] return [-ENOMEM].  In each case the machine is
    left exactly as it was. *)
Theorem device_wakeup_errors (m2j : Z → Z) (a : option loc) (k : bool)
    (others : nat → list (clock * pm_op)) (fuel : nat) (enable : bool)
    (d : loc) (dv : device) (σ : machine) :
  devices σ !! d = Some dv →
  device_wakeup_enable m2j a k others fuel None σ = Some (- EINVAL, σ)
  ∧ device_wakeup_disable m2j others fuel None σ = Some (- EINVAL, σ)
  ∧ device_set_wakeup_enable m2j a k others fuel None enable σ
    = Some (- EINVAL, σ)
  ∧ (power_can_wakeup dv = false →
     device_wakeup_enable m2j a k others fuel (Some d) σ
     = Some (- EINVAL, σ)
     ∧ device_wakeup_disable m2j others fuel (Some d) σ
       = Some (- EINVAL, σ)
     ∧ device_set_wakeup_enable m2j a k others fuel (Some d) enable σ
       = Some (- EINVAL, σ))
  ∧ (power_can_wakeup dv = true →
     device_wakeup_enable m2j None k others fuel (Some d) σ
     = Some (- ENOMEM, σ)).
Proof.
  intros Hd. do 3 (split; [done|]). split.
  - intros Hc.
    unfold device_wakeup_enable, device_wakeup_disable,
      device_set_wakeup_enable.
    rewrite Hd. simpl. by rewrite Hc.
  - intros Hc. unfold device_wakeup_enable. rewrite Hd. simpl. rewrite Hc.
    simpl. by destruct σ.
Qed.

(** The effect of [device_wakeup_enable] on a capable device when the
    allocator answers with an address [l] that is not on the list. *)
Lemma enable_effect m2j l (k : bool) others fuel d dv σ :
  devices σ !! d = Some dv → power_can_wakeup dv = true →
  l ∉ wakeup_sources (pm_of σ) →
  let s1 := set_wakeup_sources (l :: wakeup_sources (pm_of σ))
              (store l (WS.set_name (if k then Some (dev_name dv) else None)
                          kzalloc_ws)
                 (pm_of σ)) in
  device_wakeup_enable m2j (Some l) k others fuel (Some d) σ
  = match power_wakeup dv with
    | Some _ =>
        s ← wakeup_source_unregister m2j others fuel (Some l) s1;
        Some (- EEXIST, set_pm_of s σ)
    | None =>
        Some (0, Machine s1 (<[d := set_power_wakeup (Some l) dv]> (devices σ)))
    end.
Proof.
  intros Hd Hc Hnin. unfold device_wakeup_enable. rewrite Hd. simpl.
  rewrite Hc. simpl. rewrite register_effect by done. simpl.
  unfold device_wakeup_attach. simpl. rewrite Hd. simpl.
  by destruct (power_wakeup dv).
Qed.

(** X13. A device holds at most one wakeup source.  On a device that
    already has one, [device_wakeup_enable] returns [-EEXIST] and leaves
    no trace: the source it had registered for the attempt is unregistered
    and freed again and the first binding stays.  The machine is as the
    calls that other contexts made meanwhile, on other sources, have left
    it; when they made none, exactly as before. *)
Theorem enable_attached_device_is_undone (m2j : Z → Z) (l l0 : loc)
    (k : bool) (others : nat → list (clock * pm_op)) (fuel : nat)
    (d : loc) (dv : device) (σ : machine) :
  devices σ !! d = Some dv →
  power_can_wakeup dv = true →
  power_wakeup dv = Some l0 →
  registry_ok (pm_of σ) →
  mem (pm_of σ) !! l = None →
  (∀ c, c ∈ others 0%nat → op_target c.2 ≠ Some l) →
  device_wakeup_enable m2j (Some l) k others (S fuel) (Some d) σ
  = (λ s, (- EEXIST, set_pm_of s σ)) <$> pm_run m2j (others 0%nat) (pm_of σ)
  ∧ (others 0%nat = [] →
     device_wakeup_enable m2j (Some l) k others (S fuel) (Some d) σ
     = Some (- EEXIST, σ)).
Proof.
  intros Hd Hc Hb Hreg Hl Hne.
  rewrite (enable_effect m2j l k others (S fuel) d dv σ Hd Hc)
    by by apply registry_ok_notin.
  rewrite Hb. rewrite unregister_registered by done.
  split; [done|]. intros ->. simpl. by destruct σ.
Qed.

(** X14. Enabling a capable device that has no source, then disabling it,
    is a round trip.  [device_wakeup_enable] returns 0, binds the device
    to a new idle source and registers it; the source is named after the
    device when [kstrdup] succeeds, and the device is bound to a source
    without name when it fails.  [device_wakeup_disable] then returns 0 and
    the machine is as it was before the two calls, with what the calls
    that other contexts made on other sources while the source was being
    released have changed; when they made none, exactly as it was. *)
Theorem enable_disable_round_trip (m2j : Z → Z) (l : loc) (k : bool)
    (others others' : nat → list (clock * pm_op)) (fuel fuel' : nat)
    (d : loc) (dv : device) (σ : machine) :
  devices σ !! d = Some dv →
  power_can_wakeup dv = true →
  power_wakeup dv = None →
  registry_ok (pm_of σ) →
  mem (pm_of σ) !! l = None →
  (∀ c, c ∈ others' 0%nat → op_target c.2 ≠ Some l) →
  ∃ σ1 dv1,
    device_wakeup_enable m2j (Some l) k others fuel (Some d) σ = Some (0, σ1)
    ∧ devices σ1 !! d = Some dv1
    ∧ power_wakeup dv1 = Some l
    ∧ mem (pm_of σ1) !! l
      = Some (WS.set_name (if k then Some (dev_name dv) else None)
                kzalloc_ws)
    ∧ l ∈ wakeup_sources (pm_of σ1)
    ∧ device_wakeup_disable m2j others' (S fuel') (Some d) σ1
      = (λ s, (0, set_pm_of s σ)) <$> pm_run m2j (others' 0%nat) (pm_of σ)
    ∧ (others' 0%nat = [] →
       device_wakeup_disable m2j others' (S fuel') (Some d) σ1
       = Some (0, σ)).
Proof.
  intros Hd Hc Hb Hreg Hl Hne.
  rewrite (enable_effect m2j l k others fuel d dv σ Hd Hc)
    by by apply registry_ok_notin.
  rewrite Hb. set (σ1 := Machine _ _).
  assert (Hdis : device_wakeup_disable m2j others' (S fuel') (Some d) σ1
                 = (λ s, (0, set_pm_of s σ))
                     <$> pm_run m2j (others' 0%nat) (pm_of σ)).
  { unfold device_wakeup_disable, device_wakeup_detach, σ1.
    cbn [devices pm_of set_devices mbind option_bind].
    rewrite lookup_insert_eq. cbn [mbind option_bind].
    cbn [power_can_wakeup set_power_wakeup negb power_wakeup fst snd].
    rewrite Hc. cbn [negb pm_of set_devices].
    rewrite unregister_registered by done.
    destruct (pm_run m2j (others' 0%nat) (pm_of σ)) as [s1|]; simpl; [|done].
    destruct σ as [s dvs]. unfold set_pm_of. simpl in *.
    f_equal. f_equal. f_equal. rewrite insert_insert_eq.
    apply insert_id. rewrite Hd. f_equal. destruct dv. simpl in *.
    by subst. }
  exists σ1, (set_power_wakeup (Some l) dv). split; [done|].
  split; [apply lookup_insert_eq|]. split; [done|].
  split; [apply lookup_insert_eq|]. split; [left|].
  split; [exact Hdis|]. intros Hnil. rewrite Hdis, Hnil. simpl.
  by destruct σ.
Qed.

(** X15. [device_init_wakeup] with [enable] false only clears the
    capability flag: a source attached before stays attached, registered
    and allocated.  From then on [device_wakeup_disable] and
    [device_set_wakeup_enable] refuse the device with [-EINVAL] and change
    nothing, so these entry points can no longer detach the source. *)
Theorem init_wakeup_false_keeps_source (m2j : Z → Z) (a : option loc)
    (k : bool) (others : nat → list (clock * pm_op)) (fuel : nat)
    (enable : bool) (d : loc) (dv : device) (σ : machine) :
  devices σ !! d = Some dv →
  ∃ σ',
    device_init_wakeup m2j a k others fuel (Some d) false σ = Some (0, σ')
    ∧ pm_of σ' = pm_of σ
    ∧ devices σ' = <[d := set_power_can_wakeup false dv]> (devices σ)
    ∧ (power_wakeup <$> devices σ' !! d) = Some (power_wakeup dv)
    ∧ device_wakeup_disable m2j others fuel (Some d) σ' = Some (- EINVAL, σ')
    ∧ device_set_wakeup_enable m2j a k others fuel (Some d) enable σ'
      = Some (- EINVAL, σ').
Proof.
  intros Hd. unfold device_init_wakeup, device_set_wakeup_capable. simpl.
  rewrite Hd. simpl. eexists. split; [reflexivity|]. simpl.
  split; [done|]. split; [done|]. rewrite lookup_insert_eq. simpl.
  split; [done|].
  unfold device_wakeup_disable, device_set_wakeup_enable. simpl.
  rewrite ?lookup_insert_eq. done.
Qed.

(** X16. Events reported through a device that has no wakeup source are
    dropped: [pm_stay_awake], [pm_relax] and [pm_wakeup_event] on a null
    device, or on a device whose slot is empty, return and change nothing,
    neither in the framework nor in the devices. *)
Theorem device_without_source_is_ignored (m2j : Z → Z) (clk : clock)
    (msec : Z) (d : loc) (dv : device) (σ : machine) :
  devices σ !! d = Some dv →
  power_wakeup dv = None →
  pm_stay_awake clk None σ = Some σ
  ∧ pm_relax clk None σ = Some σ
  ∧ pm_wakeup_event m2j clk None msec σ = Some σ
  ∧ pm_stay_awake clk (Some d) σ = Some σ
  ∧ pm_relax clk (Some d) σ = Some σ
  ∧ pm_wakeup_event m2j clk (Some d) msec σ = Some σ.
Proof.
  intros Hd Hb. do 3 (split; [done|]).
  unfold pm_stay_awake, pm_relax, pm_wakeup_event. rewrite Hd. simpl.
  rewrite Hb. simpl. by destruct σ.
Qed.

Lemma destroy_wait_frame m2j others l fuel : ∀ i s s1,
  destroy_wait m2j others fuel i l s = Some s1 → same_frame s s1.
Proof.
  induction fuel as [|fuel IH]; intros i s s1; simpl; [done|].
  destruct (mem s !! l) as [w|]; simpl; [|done].
  destruct (pm_run m2j (others i) s) as [s2|] eqn:Hrun; simpl; [|done].
  pose proof (pm_run_frame m2j _ _ _ Hrun) as Hf.
  destruct (WS.active w); [|by intros [= <-]].
  intros Hw. eapply same_frame_trans; [exact Hf|by eapply IH].
Qed.

(** What [wakeup_source_unregister] leaves of the registry and of the set
    of allocated objects. *)
Lemma unregister_frame m2j others fuel l s s' :
  wakeup_source_unregister m2j others fuel (Some l) s = Some s' →
  l ∈ wakeup_sources s
  ∧ wakeup_sources s' = filter (λ l', l' ≠ l) (wakeup_sources s)
  ∧ dom (mem s') = dom (mem s) ∖ {[l]}.
Proof.
  unfold wakeup_source_unregister, wakeup_source_remove,
    wakeup_source_destroy.
  destruct (mem s !! l) as [w|]; simpl; [|done].
  destruct (decide (l ∈ wakeup_sources s)) as [Hin|]; simpl; [|done].
  destruct (destroy_wait _ _ _ _ _ _) as [s1|] eqn:Hw; simpl; [|done].
  intros [= <-]. apply destroy_wait_frame in Hw as (Hd & Hr & _).
  simpl in *. split; [done|]. split; [done|].
  by rewrite dom_delete_L, Hd.
Qed.

(** X17. [device_wakeup_enable] and [device_wakeup_disable] keep the
    bindings sound.  If before the call every attached source is
    registered and allocated and belongs to one device only, the registry
    holds allocated sources without duplicates and the allocator hands out
    a free address, then the same holds after the call, whatever it
    returns: no device is left pointing at a freed source, and the registry
    never lists one. *)
Theorem device_bindings_stay_sound (m2j : Z → Z) (a : option loc) (k : bool)
    (others : nat → list (clock * pm_op)) (fuel : nat) (d : loc)
    (σ σ' : machine) (ret : Z) :
  bindings_ok σ →
  registry_ok (pm_of σ) →
  NoDup (wakeup_sources (pm_of σ)) →
  (∀ l, a = Some l → mem (pm_of σ) !! l = None) →
  device_wakeup_enable m2j a k others fuel (Some d) σ = Some (ret, σ')
  ∨ device_wakeup_disable m2j others fuel (Some d) σ = Some (ret, σ') →
  bindings_ok σ'
  ∧ registry_ok (pm_of σ')
  ∧ NoDup (wakeup_sources (pm_of σ')).
Proof.
  intros Hb Hreg Hnd Hfree [Hen|Hdis].
  - revert Hen. unfold device_wakeup_enable.
    destruct (devices σ !! d) as [dv|] eqn:Hd; simpl; [|done].
    destruct (power_can_wakeup dv) eqn:Hc; simpl; [|by intros [= _ <-]].
    destruct a as [l|]; simpl; [|intros [= _ <-]; by destruct σ].
    specialize (Hfree l eq_refl).
    pose proof (registry_ok_notin _ _ Hreg Hfree) as Hnin.
    rewrite register_effect by done. simpl.
    unfold device_wakeup_attach. simpl. rewrite Hd. simpl.
    destruct (power_wakeup dv) as [l0|] eqn:Hw; simpl.
    + destruct (wakeup_source_unregister _ _ _ _ _) as [s'|] eqn:Hu;
        simpl; [|done].
      intros [= _ <-]. apply unregister_frame in Hu as (_ & Hr & Hdom).
      simpl in Hr, Hdom.
      rewrite filter_cons, decide_False in Hr by (intros H; by apply H).
      rewrite filter_ne_notin in Hr by done.
      assert (Hdom' : dom (mem s') = dom (mem (pm_of σ))).
      { rewrite Hdom, dom_insert_L.
        rewrite difference_union_distr_l_L, difference_diag_L.
        rewrite (left_id_L ∅ (∪)).
        apply difference_disjoint_L, disjoint_singleton_r.
        by apply not_elem_of_dom. }
      assert (Hal : ∀ l', is_Some (mem (pm_of σ) !! l') →
                          is_Some (mem s' !! l')).
      { intros l' Hl'. apply elem_of_dom. rewrite Hdom'.
        by apply elem_of_dom. }
      simpl. split; [|split].
      * intros d1 dv1 l1 Hd1 Hl1. simpl in *.
        destruct (Hb d1 dv1 l1 Hd1 Hl1) as (Hin1 & Hal1 & Huniq).
        rewrite Hr. split; [done|]. split; [by apply Hal|done].
      * intros l'. rewrite Hr. intros Hin'. by apply Hal, Hreg.
      * by rewrite Hr.
    + intros [= _ <-]. simpl. split; [|split].
      * intros d1 dv1 l1. simpl.
        destruct (decide (d = d1)) as [<-|Hne].
        -- rewrite lookup_insert_eq. intros [= <-]. simpl. intros [= <-].
           split; [left|]. split; [rewrite lookup_insert_eq; eauto|].
           intros d2 dv2. destruct (decide (d = d2)) as [<-|Hne2]; [done|].
           rewrite lookup_insert_ne by done. intros Hd2 Hl2.
           destruct (Hb d2 dv2 l Hd2 Hl2) as (_ & [w Hw2] & _). congruence.
        -- rewrite lookup_insert_ne by done. intros Hd1 Hl1.
           destruct (Hb d1 dv1 l1 Hd1 Hl1) as (Hin & [w1 Hw1] & Huniq).
           split; [by right|]. split.
           { rewrite lookup_insert_ne; [eauto|]. intros ->. congruence. }
           intros d2 dv2. destruct (decide (d = d2)) as [<-|Hne2].
           ++ rewrite lookup_insert_eq. intros [= <-]. simpl.
              intros [= ->]. congruence.
           ++ rewrite lookup_insert_ne by done. apply Huniq.
      * intros l' [->|Hin]%elem_of_cons; simpl.
        -- rewrite lookup_insert_eq. eauto.
        -- destruct (Hreg l' Hin) as [w Hw'].
           rewrite lookup_insert_ne; [eauto|]. intros ->. congruence.
      * apply NoDup_cons. split; [|done]. done.
  - revert Hdis. unfold device_wakeup_disable, device_wakeup_detach.
    destruct (devices σ !! d) as [dv|] eqn:Hd; simpl; [|done].
    destruct (power_can_wakeup dv) eqn:Hc; simpl; [|by intros [= _ <-]].
    destruct (power_wakeup dv) as [l|] eqn:Hw; simpl.
    + destruct (wakeup_source_unregister _ _ _ _ _) as [s'|] eqn:Hu;
        simpl; [|done].
      intros [= _ <-]. simpl.
      apply unregister_frame in Hu as (Hin & Hr & Hdom).
      split; [|split].
      * intros d1 dv1 l1. simpl.
        destruct (decide (d = d1)) as [<-|Hne].
        { rewrite lookup_insert_eq. by intros [= <-]. }
        rewrite lookup_insert_ne by done. intros Hd1 Hl1.
        destruct (Hb d1 dv1 l1 Hd1 Hl1) as (Hin1 & Hal1 & Huniq).
        assert (l1 ≠ l) as Hll.
        { intros Heq. subst l1. apply Hne. by apply (Huniq d dv). }
        split; [rewrite Hr; by apply list_elem_of_filter|]. split.
        { apply elem_of_dom. rewrite Hdom. apply elem_of_difference.
          split; [by apply elem_of_dom|]. by rewrite elem_of_singleton. }
        intros d2 dv2. destruct (decide (d = d2)) as [<-|Hne2].
        { rewrite lookup_insert_eq. by intros [= <-]. }
        rewrite lookup_insert_ne by done. apply Huniq.
      * intros l'. rewrite Hr. intros [Hne Hin']%list_elem_of_filter.
        apply elem_of_dom. rewrite Hdom. apply elem_of_difference.
        split; [apply elem_of_dom; by apply Hreg|].
        by rewrite elem_of_singleton.
      * rewrite Hr. by apply NoDup_filter.
    + intros [= _ <-]. simpl. split; [|done].
      intros d1 dv1 l1. simpl.
      destruct (decide (d = d1)) as [<-|Hne].
      { rewrite lookup_insert_eq. by intros [= <-]. }
      rewrite lookup_insert_ne by done. intros Hd1 Hl1.
      destruct (Hb d1 dv1 l1 Hd1 Hl1) as (Hin1 & Hal1 & Huniq).
      split; [done|]. split; [done|].
      intros d2 dv2. destruct (decide (d = d2)) as [<-|Hne2].
      { rewrite lookup_insert_eq. by intros [= <-]. }
      rewrite lookup_insert_ne by done. apply Huniq.
Qed.

(* ================================================================== *)
(** * Open windows and the suspend protocol *)
(* ================================================================== *)

Lemma quiescent_iff_all_idle s :
  pm_inv s →
  events_in_progress s = 0
  ↔ ∀ l w, mem s !! l = Some w → WS.active w = false.
Proof.
  intros (_ & Hip & _). rewrite Hip. unfold active_sources. split.
  - intros Hz l w Hl. assert (Hsz : size (filter (λ kw : loc * wakeup_source,
                                   WS.active kw.2 = true) (mem s)) = 0%nat)
      by lia.
    apply map_size_empty_iff, map_empty_filter_1 in Hsz.
    specialize (Hsz l w Hl). simpl in Hsz. by destruct (WS.active w).
  - intros Hidle. rewrite map_empty_filter_2; [by rewrite map_size_empty|].
    intros l w Hl. simpl. intros Ha. rewrite (Hidle l w Hl) in Ha. done.
Qed.

(** X18. An open window blocks the suspend protocol, and only an open
    window does.  In a state that satisfies the system invariant,
    [pm_save_wakeup_count] succeeds exactly when the count passed is the
    current one and no allocated source is active; and while some source
    is active an armed [pm_check_wakeup_events] answers false and disarms
    the check. *)
Theorem open_window_blocks_suspend (count : Z) (s : pm) :
  pm_inv s →
  registry_ok s →
  ((∃ s', pm_save_wakeup_count count s = Some (true, s'))
   ↔ (count = uint (event_count s)
      ∧ ∀ l w, mem s !! l = Some w → WS.active w = false))
  ∧ (∀ l w, mem s !! l = Some w → WS.active w = true →
       events_check_enabled s = true →
       ∃ s', pm_check_wakeup_events s = Some (false, s')
             ∧ events_check_enabled s' = false).
Proof.
  intros Hinv Hreg. split.
  - rewrite <- (quiescent_iff_all_idle s Hinv).
    unfold pm_save_wakeup_count, atomic_read.
    destruct (count =? uint (event_count s)) eqn:Hc;
      destruct (events_in_progress s =? 0) eqn:Hp; simpl.
    1: { split; [intros _; lia|eauto]. }
    all: destruct (pm_wakeup_update_hit_counts s); simpl;
         (split; [by intros [s' [=]]|intros [? ?]; lia]).
  - intros l w Hl Ha Hen.
    assert (Hnz : (events_in_progress s =? 0) = false).
    { apply Z.eqb_neq. intros Hz.
      pose proof (proj1 (quiescent_iff_all_idle s Hinv) Hz l w Hl) as Hi.
      rewrite Hi in Ha. done. }
    unfold pm_check_wakeup_events, atomic_read. rewrite Hen, Hnz.
    rewrite andb_false_r. simpl.
    destruct (update_hit_counts_frame (set_events_check_enabled false s)
                Hreg) as (s' & Hu & (_ & _ & He & _) & _).
    rewrite Hu. simpl. eauto.
Qed.

Lemma for_each_hit_entry_counts ls : ∀ s s',
  list_for_each_entry hit_entry ls s = Some s' →
  events_in_progress s' = events_in_progress s.
Proof.
  induction ls as [|l ls IH]; intros s s'; simpl; [by intros [= <-]|].
  destruct (mem s !! l) as [w|] eqn:Hl.
  - rewrite (hit_entry_eq l w s Hl). simpl. intros Hrun.
    by rewrite (IH _ _ Hrun).
  - unfold hit_entry. by rewrite Hl.
Qed.

(** X19. [pm_get_wakeup_count] does not return while events stay in
    progress: when [events_in_progress] is nonzero on entry, no signal is
    ever pending and no other context makes a call, no number of
    iterations ends the wait. *)
Theorem get_wakeup_count_waits (m2j : Z → Z) (e : get_env) (s : pm) :
  events_in_progress s ≠ 0 →
  (∀ i, signal_pending e i = false) →
  (∀ i, racing e i = []) →
  (∀ i, others e i = []) →
  ∀ fuel, pm_get_wakeup_count m2j e fuel s = None.
Proof.
  intros Hnz Hsig Hrac Hoth fuel. unfold pm_get_wakeup_count.
  assert (Hw : ∀ i s0, events_in_progress s0 ≠ 0 →
               get_wait m2j e fuel i s0 = None).
  { induction fuel as [|fuel IH]; intros i s0 Hnz0; simpl; [done|].
    unfold atomic_read. apply Z.eqb_neq in Hnz0 as Hb.
    rewrite Hb, Hsig, Hrac. simpl.
    destruct (pm_wakeup_update_hit_counts s0) as [s1|] eqn:Hu; simpl;
      [|done].
    rewrite Hoth. simpl. apply IH.
    unfold pm_wakeup_update_hit_counts in Hu.
    by rewrite (for_each_hit_entry_counts _ _ _ Hu). }
  rewrite Hw; [done|]. by destruct (capable e).
Qed.

(** X20. [device_init_wakeup] with [enable] true makes the device
    wakeup-capable first, so it succeeds even on a device that was not:
    a device without source comes out capable and bound to a new idle
    source that heads the registry, and the call returns 0.  The source
    bears the device's name when [kstrdup] succeeds; when it fails the
    call returns 0 all the same and the source has no name. *)
Theorem init_wakeup_true_enables (m2j : Z → Z) (l : loc) (k : bool)
    (others : nat → list (clock * pm_op)) (fuel : nat)
    (d : loc) (dv : device) (σ : machine) :
  devices σ !! d = Some dv →
  power_wakeup dv = None →
  l ∉ wakeup_sources (pm_of σ) →
  ∃ σ',
    device_init_wakeup m2j (Some l) k others fuel (Some d) true σ
    = Some (0, σ')
    ∧ devices σ' !! d = Some (Device (dev_name dv) true (Some l))
    ∧ (∀ d', d' ≠ d → devices σ' !! d' = devices σ !! d')
    ∧ mem (pm_of σ') !! l
      = Some (WS.set_name (if k then Some (dev_name dv) else None)
                kzalloc_ws)
    ∧ wakeup_sources (pm_of σ') = l :: wakeup_sources (pm_of σ)
    ∧ events_in_progress (pm_of σ') = events_in_progress (pm_of σ).
Proof.
  intros Hd Hb Hnin. unfold device_init_wakeup, device_set_wakeup_capable.
  cbn [mbind option_bind]. rewrite Hd. cbn [mbind option_bind].
  rewrite (enable_effect m2j l k others fuel d
             (set_power_can_wakeup true dv));
    [| apply lookup_insert_eq | done | done].
  simpl. rewrite Hb. eexists. split; [reflexivity|]. simpl.
  split; [by rewrite lookup_insert_eq|]. split.
  { intros d' Hne. by rewrite !lookup_insert_ne. }
  split; [apply lookup_insert_eq|]. done.
Qed.

(* ================================================================== *)
(** * Further worked examples *)
(* ================================================================== *)

Lemma example_inv : pm_inv example_system.
Proof. apply fresh_system_inv, example_fresh. Qed.

Lemma example_NoDup : NoDup (wakeup_sources example_system).
Proof. change (NoDup [1%positive]). apply NoDup_singleton. Qed.

Lemma example_clocks : clocks_from 0 example_schedule.
Proof. unfold clocks_from, example_schedule. simpl. lia. Qed.

Lemma example_busy_inv : pm_inv example_busy.
Proof.
  destruct (pm_step_inv (msecs_to_jiffies_hz 100)
              (Clock 90 900 900, op_stay_awake (Some 1%positive))
              example_system example_inv) as (s' & Hs & Hinv & _).
  { intros l [= <-]. by eexists. }
  assert (E : pm_step (msecs_to_jiffies_hz 100)
                (Clock 90 900 900, op_stay_awake (Some 1%positive))
                example_system = Some example_busy) by (by vm_compute).
  rewrite E in Hs. by injection Hs as <-.
Qed.

Lemma example_schedule_other :
  ∀ c, c ∈ example_schedule → op_target c.2 ≠ Some 2%positive.
Proof.
  intros c Hc. unfold example_schedule in Hc.
  repeat (apply elem_of_cons in Hc as [->|Hc]; [done|]).
  by apply elem_of_nil in Hc.
Qed.

Lemma example_alone_ok s : ∀ j : nat, schedule_ok s ((λ _ : nat, []) j).
Proof. intros j c l Hc. by apply elem_of_nil in Hc. Qed.

Lemma example_machine_bindings : bindings_ok example_machine.
Proof.
  intros d dv l Hd Hl. unfold example_machine in Hd. simpl in Hd.
  apply lookup_singleton_Some in Hd as [_ <-]. done.
Qed.

(** The device of the example machine is bound to the source at 1, which
    is registered, idle and named after the device. *)
Example example_attached_state :
  devices example_attached !! 7%positive
  = Some (Device "rtc0" true (Some 1%positive))
  ∧ wakeup_sources (pm_of example_attached) = [1%positive]
  ∧ mem (pm_of example_attached) !! 1%positive
    = Some (WS.set_name (Some "rtc0") kzalloc_ws).
Proof. by vm_compute. Qed.

(** X1 on the example system and schedule. *)
Lemma timer_pending_only_while_active_witness :
  ∃ s, pm_run (msecs_to_jiffies_hz 100) example_schedule example_system
       = Some s
       ∧ ∀ l w, mem s !! l = Some w →
           (WS.active w = false → WS.timer w = None)
           ∧ (∀ e, WS.timer w = Some e →
                WS.active w = true ∧ WS.timer_expires w = e).
Proof.
  exact (timer_pending_only_while_active (msecs_to_jiffies_hz 100)
           example_system example_schedule example_fresh example_schedule_ok).
Defined.

(** X2 on the example system and schedule, whose clocks increase. *)
Lemma window_statistics_sound_witness :
  ∃ s, pm_run (msecs_to_jiffies_hz 100) example_schedule example_system
       = Some s
       ∧ ∀ l w, mem s !! l = Some w →
           0 ≤ WS.max_time w ≤ WS.total_time w
           ∧ (WS.active w = true →
              WS.last_time w ≤ last_clock 0 example_schedule).
Proof.
  exact (window_statistics_sound (msecs_to_jiffies_hz 100) 0 example_system
           example_schedule example_fresh example_schedule_ok example_clocks).
Defined.

(** X3 after the first call of the example schedule, which opens a
    window. *)
Lemma relax_closes_open_window_witness :
  ∃ s, pm_run (msecs_to_jiffies_hz 100) (take 1 example_schedule)
         example_system = Some s
       ∧ ∀ l w, mem s !! l = Some w → WS.active w = true →
           ∃ s' w',
             __pm_relax (Clock 101 1010 1010) (Some l) s = Some s'
             ∧ mem s' !! l = Some w'
             ∧ WS.active w' = false
             ∧ WS.relax_count w' = WS.active_count w'
             ∧ WS.active_count w' = WS.active_count w
             ∧ events_in_progress s' = events_in_progress s - 1
             ∧ 0 ≤ events_in_progress s'
             ∧ event_count s' = atomic_inc (event_count s).
Proof.
  refine (relax_closes_open_window (msecs_to_jiffies_hz 100) example_system
            (take 1 example_schedule) (Clock 101 1010 1010) example_fresh _).
  intros c l Hc. apply example_schedule_ok. by eapply subseteq_take.
Defined.

(** X4 on the example system: three calls of [__pm_stay_awake], one of
    [__pm_relax]. *)
Lemma stay_awake_does_not_nest_witness :
  ∃ s' w',
    pm_run (msecs_to_jiffies_hz 100)
      (stay_awake_calls 1%positive
         [Clock 100 1000 1000; Clock 101 1010 1010; Clock 102 1020 1020]
       ++ [(Clock 105 1050 1050, op_relax (Some 1%positive))])
      example_system = Some s'
    ∧ mem s' !! 1%positive = Some w'
    ∧ WS.active w' = false
    ∧ WS.active_count w' = 1
    ∧ WS.relax_count w' = WS.active_count w'
    ∧ WS.event_count w' = 3
    ∧ WS.total_time w' = 50
    ∧ events_in_progress s' = 0
    ∧ event_count s' = 1.
Proof.
  exact (stay_awake_does_not_nest (msecs_to_jiffies_hz 100) 1%positive
           (Clock 100 1000 1000) [Clock 101 1010 1010; Clock 102 1020 1020]
           (Clock 105 1050 1050) (WS.set_name (Some "rtc") kzalloc_ws)
           example_system eq_refl ltac:(by vm_compute) eq_refl
           ltac:(by vm_compute)).
Defined.

(** X5 on the example system with its window open. *)
Lemma hit_counts_charge_active_sources_witness :
  ∃ s', pm_wakeup_update_hit_counts example_busy = Some s'
        ∧ s' = set_mem (mem s') example_busy
        ∧ dom (mem s') = dom (mem example_busy)
        ∧ ∀ l w, mem example_busy !! l = Some w →
            mem s' !! l
            = Some (if decide (l ∈ wakeup_sources example_busy
                               ∧ WS.active w = true)
                    then WS.set_hit_count (ulong (WS.hit_count w + 1)) w
                    else w).
Proof.
  refine (hit_counts_charge_active_sources example_busy _ _).
  - intros l Hl. vm_compute in Hl. apply list_elem_of_singleton in Hl as ->.
    by eexists.
  - change (NoDup [1%positive]). apply NoDup_singleton.
Defined.

(** X6 on the example system: the count 0 is saved, and a schedule of
    calls that do nothing follows. *)
Lemma check_passes_only_if_nothing_happened_witness :
  let s0 := set_events_check_enabled true (set_saved_count 0 example_system) in
  pm_check_wakeup_events s0 = Some (true, s0)
  ∧ ∀ cs s1 s2,
      schedule_ok example_system cs →
      Z.of_nat (length cs) < 2 ^ 32 →
      pm_run (msecs_to_jiffies_hz 100) cs s0 = Some s1 →
      pm_check_wakeup_events s1 = Some (true, s2) →
      s1 = s0 ∧ s2 = s0.
Proof.
  exact (check_passes_only_if_nothing_happened (msecs_to_jiffies_hz 100) 0
           example_system _ example_inv eq_refl).
Defined.

(** X7 on the busy example system, whose window the other contexts close
    during the first sleep. *)
Lemma get_then_save_succeeds_witness :
  ∃ count s',
    pm_get_wakeup_count (msecs_to_jiffies_hz 100) example_env 2 example_busy
    = Some (true, count, s')
    ∧ before_count example_env = []
    ∧ pm_save_wakeup_count count s'
      = Some (true,
              set_events_check_enabled true (set_saved_count count s')).
Proof.
  eexists _, _. split; [vm_compute; reflexivity|]. split; [reflexivity|].
  refine (proj2 (get_then_save_succeeds (msecs_to_jiffies_hz 100)
                   example_env 2 example_busy true _ _ _) eq_refl eq_refl).
  vm_compute; reflexivity.
Defined.

(** X8 on the example system: a second source at the free address 2, when
    the name cannot be duplicated. *)
Lemma wakeup_source_register_spec_witness :
  wakeup_source_register (Some "kbd") None false example_system
  = Some (None, example_system)
  ∧ ∃ s',
      wakeup_source_register (Some "kbd") (Some 2%positive) false
        example_system = Some (Some 2%positive, s')
      ∧ mem s' !! 2%positive = Some kzalloc_ws
      ∧ (∀ l', l' ≠ 2%positive → mem s' !! l' = mem example_system !! l')
      ∧ wakeup_sources s' = 2%positive :: wakeup_sources example_system
      ∧ registry_ok s'
      ∧ NoDup (wakeup_sources s')
      ∧ events_in_progress s' = events_in_progress example_system
      ∧ event_count s' = event_count example_system
      ∧ (pm_inv example_system →
         Z.of_nat (size (mem example_system)) + 1 < 2 ^ 31 → pm_inv s').
Proof.
  exact (wakeup_source_register_spec (Some "kbd") 2%positive false
           example_system example_registry_ok example_NoDup eq_refl).
Defined.

(** X9 on the example system, while the other contexts run the example
    schedule on the source at 1. *)
Lemma register_unregister_round_trip_witness :
  ∃ s', wakeup_source_register (Some "kbd") (Some 2%positive) true
          example_system = Some (Some 2%positive, s')
        ∧ wakeup_source_unregister (msecs_to_jiffies_hz 100)
            (λ _, example_schedule) 1 (Some 2%positive) s'
          = pm_run (msecs_to_jiffies_hz 100) example_schedule example_system.
Proof.
  destruct (register_unregister_round_trip (msecs_to_jiffies_hz 100)
              (Some "kbd") 2%positive true (λ _, example_schedule) 0
              example_system example_registry_ok eq_refl
              example_schedule_other) as (s' & H1 & H2 & _).
  by exists s'.
Defined.

(** X10 on the busy example system: another context closes the window
    during the first sleep, and the source is destroyed after the second
    test. *)
Lemma destroy_frees_idle_source_only_witness :
  let others := λ _ : nat,
    [(Clock 95 950 950, op_relax (Some 1%positive))] in
  ∃ s',
    wakeup_source_destroy (msecs_to_jiffies_hz 100) others 2
      (Some 1%positive) example_busy = Some s'
    ∧ pm_inv s'
    ∧ mem s' !! 1%positive = None
    ∧ dom (mem s') = dom (mem example_busy) ∖ {[1%positive]}
    ∧ wakeup_sources s' = wakeup_sources example_busy
    ∧ 0 ≤ events_in_progress s'.
Proof.
  eexists. split; [vm_compute; reflexivity|].
  apply (destroy_frees_idle_source_only (msecs_to_jiffies_hz 100)
           (λ _, [(Clock 95 950 950, op_relax (Some 1%positive))]) 2
           1%positive example_busy).
  - exact example_busy_inv.
  - intros j c l Hc Ht. apply list_elem_of_singleton in Hc as ->.
    injection Ht as <-. by eexists.
  - intros j c Hc _. apply list_elem_of_singleton in Hc as ->. by left.
  - vm_compute; reflexivity.
Defined.

(** X11 on the busy example system, with nobody else running. *)
Lemma destroy_blocks_while_active_witness :
  wakeup_source_destroy (msecs_to_jiffies_hz 100) (λ _, []) 1000
    (Some 1%positive) example_busy = None.
Proof.
  refine (destroy_blocks_while_active (msecs_to_jiffies_hz 100) (λ _, [])
            1%positive _ example_busy eq_refl eq_refl _ 1000%nat).
  intros j c Hc. by apply elem_of_nil in Hc.
Defined.

(** X21 on the example system: an event is reported on its idle source
    while the source is being destroyed. *)
Lemma destroy_races_with_new_event_witness :
  let others := λ _ : nat,
    [(Clock 100 1000 1000, op_stay_awake (Some 1%positive))] in
  ∃ s', wakeup_source_destroy (msecs_to_jiffies_hz 100) others 1
          (Some 1%positive) example_system = Some s'
        ∧ mem s' = delete 1%positive (mem example_system)
        ∧ active_sources s' = active_sources example_system
        ∧ events_in_progress s' = events_in_progress example_system + 1
        ∧ events_in_progress s' = Z.of_nat (size (active_sources s')) + 1
        ∧ ¬ pm_inv s'.
Proof.
  exact (destroy_races_with_new_event (msecs_to_jiffies_hz 100)
           (Clock 100 1000 1000)
           (λ _, [(Clock 100 1000 1000, op_stay_awake (Some 1%positive))])
           0 1%positive (WS.set_name (Some "rtc") kzalloc_ws) example_system
           example_inv eq_refl eq_refl eq_refl).
Defined.

(** X12 on the example machine. *)
Lemma device_wakeup_errors_witness :
  device_wakeup_enable (msecs_to_jiffies_hz 100) None true (λ _, []) 1 None
    example_machine = Some (- EINVAL, example_machine)
  ∧ device_wakeup_enable (msecs_to_jiffies_hz 100) None true (λ _, []) 1
      (Some 7%positive) example_machine = Some (- ENOMEM, example_machine).
Proof.
  pose proof (device_wakeup_errors (msecs_to_jiffies_hz 100) None true
                (λ _, []) 1 true 7%positive (Device "rtc0" true None)
                example_machine eq_refl) as (H1 & _ & _ & _ & H5).
  split; [exact H1|exact (H5 eq_refl)].
Defined.

(** X13 on the example machine with its device attached: a second attempt
    with the free address 2, while the other contexts run the example
    schedule on the source at 1. *)
Lemma enable_attached_device_is_undone_witness :
  device_wakeup_enable (msecs_to_jiffies_hz 100) (Some 2%positive) true
    (λ _, example_schedule) 1 (Some 7%positive) example_attached
  = (λ s, (- EEXIST, set_pm_of s example_attached))
      <$> pm_run (msecs_to_jiffies_hz 100) example_schedule
            (pm_of example_attached).
Proof.
  refine (proj1 (enable_attached_device_is_undone (msecs_to_jiffies_hz 100)
                   2%positive 1%positive true (λ _, example_schedule) 0
                   7%positive (Device "rtc0" true (Some 1%positive))
                   example_attached eq_refl eq_refl eq_refl _ eq_refl
                   example_schedule_other)).
  intros l Hl. vm_compute in Hl. apply list_elem_of_singleton in Hl as ->.
  by eexists.
Defined.

(** X14 on the example machine, when the name of the device cannot be
    duplicated: the device is bound to a source without name. *)
Lemma enable_disable_round_trip_witness :
  ∃ σ1 dv1,
    device_wakeup_enable (msecs_to_jiffies_hz 100) (Some 1%positive) false
      (λ _, []) 0 (Some 7%positive) example_machine = Some (0, σ1)
    ∧ devices σ1 !! 7%positive = Some dv1
    ∧ power_wakeup dv1 = Some 1%positive
    ∧ mem (pm_of σ1) !! 1%positive = Some kzalloc_ws
    ∧ 1%positive ∈ wakeup_sources (pm_of σ1)
    ∧ device_wakeup_disable (msecs_to_jiffies_hz 100) (λ _, []) 1
        (Some 7%positive) σ1 = Some (0, example_machine).
Proof.
  destruct (enable_disable_round_trip (msecs_to_jiffies_hz 100) 1%positive
              false (λ _, []) (λ _, []) 0 0 7%positive
              (Device "rtc0" true None) example_machine
              eq_refl eq_refl eq_refl)
    as (σ1 & dv1 & H1 & H2 & H3 & H4 & H5 & _ & H7).
  - intros l Hl. by apply elem_of_nil in Hl.
  - reflexivity.
  - intros c Hc. by apply elem_of_nil in Hc.
  - exists σ1, dv1. do 5 (split; [assumption|]). exact (H7 eq_refl).
Defined.

(** X15 on the example machine with its device attached. *)
Lemma init_wakeup_false_keeps_source_witness :
  ∃ σ',
    device_init_wakeup (msecs_to_jiffies_hz 100) None true (λ _, []) 1
      (Some 7%positive) false example_attached = Some (0, σ')
    ∧ pm_of σ' = pm_of example_attached
    ∧ (power_wakeup <$> devices σ' !! 7%positive) = Some (Some 1%positive)
    ∧ device_wakeup_disable (msecs_to_jiffies_hz 100) (λ _, []) 1
        (Some 7%positive) σ' = Some (- EINVAL, σ').
Proof.
  destruct (init_wakeup_false_keeps_source (msecs_to_jiffies_hz 100) None
              true (λ _, []) 1 false 7%positive
              (Device "rtc0" true (Some 1%positive)) example_attached
              eq_refl) as (σ' & H1 & H2 & _ & H4 & H5 & _).
  exists σ'. by repeat split.
Defined.

(** X16 on the example machine, whose device has no source. *)
Lemma device_without_source_is_ignored_witness :
  pm_stay_awake (Clock 100 1000 1000) (Some 7%positive) example_machine
  = Some example_machine
  ∧ pm_relax (Clock 100 1000 1000) (Some 7%positive) example_machine
    = Some example_machine
  ∧ pm_wakeup_event (msecs_to_jiffies_hz 100) (Clock 100 1000 1000)
      (Some 7%positive) 50 example_machine = Some example_machine.
Proof.
  pose proof (device_without_source_is_ignored (msecs_to_jiffies_hz 100)
                (Clock 100 1000 1000) 50 7%positive (Device "rtc0" true None)
                example_machine eq_refl eq_refl)
    as (_ & _ & _ & H4 & H5 & H6).
  by repeat split.
Defined.

(** X17 on the example machine: enabling its device. *)
Lemma device_bindings_stay_sound_witness :
  bindings_ok example_attached
  ∧ registry_ok (pm_of example_attached)
  ∧ NoDup (wakeup_sources (pm_of example_attached)).
Proof.
  refine (device_bindings_stay_sound (msecs_to_jiffies_hz 100)
            (Some 1%positive) true (λ _, []) 0 7%positive example_machine
            example_attached 0 example_machine_bindings _ _ _ _).
  - intros l Hl. by apply elem_of_nil in Hl.
  - apply NoDup_nil_2.
  - by intros l [= <-].
  - left. by vm_compute.
Defined.

(** X18 on the example system, idle and then busy. *)
Lemma open_window_blocks_suspend_witness :
  (∃ s', pm_save_wakeup_count 0 example_system = Some (true, s'))
  ↔ (0 = uint (event_count example_system)
     ∧ ∀ l w, mem example_system !! l = Some w → WS.active w = false).
Proof.
  exact (proj1 (open_window_blocks_suspend 0 example_system example_inv
                  example_registry_ok)).
Defined.

(** X19 on the busy example system, for a caller that is alone and never
    signalled. *)
Lemma get_wakeup_count_waits_witness :
  pm_get_wakeup_count (msecs_to_jiffies_hz 100)
    (GetEnv true (λ _, false) (λ _, []) (λ _, []) []) 1000 example_busy
  = None.
Proof.
  exact (get_wakeup_count_waits (msecs_to_jiffies_hz 100)
           (GetEnv true (λ _, false) (λ _, []) (λ _, []) []) example_busy
           ltac:(by vm_compute) (λ _, eq_refl) (λ _, eq_refl)
           (λ _, eq_refl) 1000%nat).
Defined.

(** X20 on the example machine, when the name of the device cannot be
    duplicated. *)
Lemma init_wakeup_true_enables_witness :
  ∃ σ',
    device_init_wakeup (msecs_to_jiffies_hz 100) (Some 1%positive) false
      (λ _, []) 0 (Some 7%positive) true example_machine = Some (0, σ')
    ∧ devices σ' !! 7%positive = Some (Device "rtc0" true (Some 1%positive))
    ∧ (∀ d', d' ≠ 7%positive →
             devices σ' !! d' = devices example_machine !! d')
    ∧ mem (pm_of σ') !! 1%positive = Some kzalloc_ws
    ∧ wakeup_sources (pm_of σ') = [1%positive]
    ∧ events_in_progress (pm_of σ') = 0.
Proof.
  exact (init_wakeup_true_enables (msecs_to_jiffies_hz 100) 1%positive
           false (λ _, []) 0 7%positive (Device "rtc0" true None)
           example_machine eq_refl eq_refl
           ltac:(intros H; by apply elem_of_nil in H)).
Defined.
